(** * Larynx: the transcript buffer, the recognition adapter and the
      recording pipeline, embedded from the Python sources.

    Python values are modelled as follows.
    - A [str] is a list of characters.  The recogniser's vocabulary and the
      literals of the program are ASCII; the 128 upper values of [ascii] stand
      for characters that are neither whitespace nor cased.
    - [bytes] is a list of bytes.
    - A method that mutates [self] returns the new object.
    - A call into an external library that may raise returns an [outcome].
    - [print] appends a line to an explicit [stdout] log. *)

From Stdlib Require Import Ascii String ZArith Lia DecimalString.
From stdpp Require Import list strings gmap.
From Equations Require Import Equations.

Set Default Proof Using "Type".

(** ** Python strings *)

Module Py.

Abbreviation str := (list ascii).
Abbreviation bytes := (list Byte.byte).

(** The exceptions the program meets: [queue.Full], [queue.Empty], and any
    other [Exception] with the text [str(e)]. *)
Inductive exn :=
| Full
| Empty
| Exception (msg : str).

(** [str(e)] *)
Definition exn_str (e : exn) : str :=
  match e with
  | Exception msg => msg
  | _ => []
  end.

(** The result of a call that may raise. *)
Inductive outcome (A : Type) :=
| Ok (a : A)
| Raise (e : exn).
Arguments Ok {A} a.
Arguments Raise {A} e.

(** A Python literal. *)
Definition lit (s : string) : str := list_ascii_of_string s.

(** [str.isspace] on one character: TAB, LF, VT, FF, CR, the four separators
    FS GS RS US, and SPACE.  The same set drives [str.strip], [str.split] and
    the class [\s] of [re] on [str] patterns. *)
Definition isspace (c : ascii) : bool :=
  let n := N_of_ascii c in
  (N.leb 9 n && N.leb n 13) || (N.leb 28 n && N.leb n 32).

(** The class [[a-z]]. *)
Definition is_lower (c : ascii) : bool :=
  let n := N_of_ascii c in N.leb 97 n && N.leb n 122.

(** The class [[.!?]]. *)
Definition is_sentence_end (c : ascii) : bool :=
  let n := N_of_ascii c in N.eqb n 46 || N.eqb n 33 || N.eqb n 63.

(** [str.upper] on one character of ASCII.  A character above 127 is left as
    it is, whereas Python recases letters there too and may even write two
    characters for one: what is stated on capitals is stated for ASCII
    text. *)
Definition upper_char (c : ascii) : ascii :=
  if is_lower c then ascii_of_N (N_of_ascii c - 32) else c.

(** [str.lower] on one character (used only to state case-insensitive facts). *)
Definition lower_char (c : ascii) : ascii :=
  let n := N_of_ascii c in
  if N.leb 65 n && N.leb n 90 then ascii_of_N (n + 32) else c.

Definition upper (s : str) : str := upper_char <$> s.
Definition lower (s : str) : str := lower_char <$> s.

Fixpoint take_while (p : ascii -> bool) (s : str) : str :=
  match s with
  | c :: s' => if p c then c :: take_while p s' else []
  | [] => []
  end.

Fixpoint drop_while (p : ascii -> bool) (s : str) : str :=
  match s with
  | c :: s' => if p c then drop_while p s' else s
  | [] => []
  end.

(** [s.lstrip()], [s.rstrip()], [s.strip()]. *)
Definition lstrip (s : str) : str := drop_while isspace s.

Fixpoint rstrip (s : str) : str :=
  match s with
  | [] => []
  | c :: s' =>
      match rstrip s' with
      | [] => if isspace c then [] else [c]
      | r => c :: r
      end
  end.

Definition strip (s : str) : str := rstrip (lstrip s).

(** [re.sub(pattern, repl, s)] for a pattern that cannot match the empty
    string.  [pat s] tries the pattern at the start of [s] and answers the
    length of the match minus one; [repl] receives the matched text.  The scan
    goes left to right, a match is replaced and the scan resumes behind it, a
    character where the pattern fails is copied. *)
Equations re_sub (pat : str -> option nat) (repl : str -> str) (s : str) : str
  by wf (length s) lt :=
  re_sub pat repl [] := [];
  re_sub pat repl (c :: s') with pat (c :: s') => {
    | Some n := repl (c :: take n s') ++ re_sub pat repl (drop n s');
    | None := c :: re_sub pat repl s' }.
Next Obligation. rewrite length_drop. lia. Qed.

(** The pattern [\s+]: one whitespace character, then as many as follow. *)
Definition pat_spaces (s : str) : option nat :=
  match s with
  | c :: s' => if isspace c then Some (length (take_while isspace s')) else None
  | [] => None
  end.

(** The pattern of [_format_text]: group 1 is one of [.!?] and the whitespace
    run behind it, group 2 is one character of [a-z].  The run is matched
    greedily; giving characters back cannot help, since the character after a
    shorter run is whitespace and not in [a-z]. *)
Definition pat_sentence_start (s : str) : option nat :=
  match s with
  | c :: s' =>
      if is_sentence_end c then
        let k := length (take_while isspace s') in
        match drop k s' with
        | l :: _ => if is_lower l then Some (S k) else None
        | [] => None
        end
      else None
  | [] => None
  end.

(** [lambda m: m.group(1) + m.group(2).upper()]: group 2 is the last
    character of the match. *)
Definition repl_sentence_start (m : str) : str :=
  take (length m - 1) m ++ upper (drop (length m - 1) m).

(** [s.split()]: the maximal runs of non-whitespace characters. *)
Equations split (s : str) : list str by wf (length s) lt :=
  split [] := [];
  split (c :: s') with isspace c => {
    | true := split s';
    | false :=
        let w := take_while (fun x => negb (isspace x)) s' in
        (c :: w) :: split (drop (length w) s') }.
Next Obligation. rewrite length_drop. lia. Qed.

(** [p in s] for two strings: [p] occurs in [s] as a contiguous part. *)
Fixpoint startswith (s p : str) : bool :=
  match p, s with
  | [], _ => true
  | a :: p', b :: s' => Ascii.eqb a b && startswith s' p'
  | _ :: _, [] => false
  end.

Fixpoint contains (s p : str) : bool :=
  startswith s p ||
  match s with
  | [] => false
  | _ :: s' => contains s' p
  end.

End Py.

(** ** src/text_buffer.py *)

Module TextBuffer.
Import Py.

(** The fields of a [TextBuffer].  The lock serialises the public methods;
    each of them is one atomic transition here. *)
Record t := mk {
  final_text : str;
  partial_text : str;
  last_partial_length : Z
}.

(** [__init__] *)
Definition init : t :=
  {| final_text := []; partial_text := []; last_partial_length := 0 |}.

(** [_clean_text] *)
Definition _clean_text (text : str) : str :=
  match text with
  | [] => []
  | _ => re_sub pat_spaces (fun _ => lit " ") (strip text)
  end.

(** [_format_text] *)
Definition _format_text (text : str) : str :=
  match text with
  | [] => []
  | _ =>
      let formatted := re_sub pat_spaces (fun _ => lit " ") (strip text) in
      let formatted :=
        match formatted with
        | c :: rest => upper [c] ++ rest
        | [] => formatted
        end in
      re_sub pat_sentence_start repl_sentence_start formatted
  end.

(** [add_partial_text] *)
Definition add_partial_text (self : t) (text : str) : t :=
  match text with
  | _ :: _ =>
      {| final_text := final_text self;
         partial_text := _clean_text text;
         last_partial_length := last_partial_length self |}
  | [] =>
      {| final_text := final_text self;
         partial_text := [];
         last_partial_length := last_partial_length self |}
  end.

(** [add_final_text]: both assignments sit under [if text:]. *)
Definition add_final_text (self : t) (text : str) : t :=
  match text with
  | _ :: _ =>
      {| final_text := final_text self ++ _clean_text text ++ lit " ";
         partial_text := [];
         last_partial_length := last_partial_length self |}
  | [] => self
  end.

(** [get_full_text] *)
Definition get_full_text (self : t) : str :=
  _format_text (strip (final_text self ++ partial_text self)).

(** [get_final_text_only] *)
Definition get_final_text_only (self : t) : str :=
  _format_text (strip (final_text self)).

(** [get_partial_text_only] *)
Definition get_partial_text_only (self : t) : str := partial_text self.

(** [clear] *)
Definition clear (self : t) : t :=
  {| final_text := []; partial_text := []; last_partial_length := 0 |}.

(** [get_word_count] *)
Definition get_word_count (self : t) : nat := length (split (final_text self)).

(** [is_empty] *)
Definition is_empty (self : t) : bool :=
  match final_text self, partial_text self with
  | [], [] => true
  | _, _ => false
  end.

(** The three mutators, as the commands a caller can issue. *)
Inductive op :=
| AddPartial (text : str)
| AddFinal (text : str)
| Clear.

Definition exec (self : t) (o : op) : t :=
  match o with
  | AddPartial text => add_partial_text self text
  | AddFinal text => add_final_text self text
  | Clear => clear self
  end.

Definition run (self : t) (ops : list op) : t := foldl exec self ops.

End TextBuffer.

(** ** queue.Queue

    A call is modelled with no other thread running while it waits: [put] on a
    full queue and [get] on an empty one wait out their timeout and raise.
    Times are in milliseconds ([timeout=0.1] is [100]); every blocking call
    also answers how long it waited. *)

Module Queue.
Import Py.

Record t (A : Type) := mk {
  maxsize : Z;
  items : list A
}.
Arguments mk {A}.
Arguments maxsize {A}.
Arguments items {A}.

(** [queue.Queue(maxsize)] *)
Definition new {A} (maxsize : Z) : t A := {| maxsize := maxsize; items := [] |}.

Definition qsize {A} (q : t A) : nat := length (items q).

Definition empty {A} (q : t A) : bool :=
  match items q with [] => true | _ => false end.

(** [full()]: a [maxsize] of zero or less means no bound. *)
Definition full {A} (q : t A) : bool :=
  (0 <? maxsize q)%Z && (maxsize q <=? Z.of_nat (qsize q))%Z.

(** [put(item, timeout=timeout)] *)
Definition put {A} (q : t A) (item : A) (timeout : Z) : outcome (t A) * Z :=
  if full q then (Raise Full, timeout)
  else (Ok {| maxsize := maxsize q; items := items q ++ [item] |}, 0%Z).

(** [get_nowait()] *)
Definition get_nowait {A} (q : t A) : outcome (A * t A) :=
  match items q with
  | x :: rest => Ok (x, {| maxsize := maxsize q; items := rest |})
  | [] => Raise Empty
  end.

(** [get(timeout=timeout)] *)
Definition get {A} (q : t A) (timeout : Z) : outcome (A * t A) * Z :=
  match items q with
  | x :: rest => (Ok (x, {| maxsize := maxsize q; items := rest |}), 0%Z)
  | [] => (Raise Empty, timeout)
  end.

(** The loop [while not q.empty(): try: q.get_nowait() except Empty: break]. *)
Fixpoint drain_items {A} (fuel : nat) (q : t A) : t A :=
  match fuel with
  | O => q
  | S fuel' =>
      if empty q then q
      else match get_nowait q with
           | Ok (_, q') => drain_items fuel' q'
           | Raise _ => q
           end
  end.

Definition drain {A} (q : t A) : t A := drain_items (qsize q) q.

(** A queue of capacity [capacity] that holds no more than that. *)
Definition within {A} (capacity : nat) (q : t A) : Prop :=
  maxsize q = Z.of_nat capacity /\ qsize q <= capacity.

End Queue.

(** ** src/audio_capture.py *)

Module AudioCapture.
Import Py.

(** The fields the recording loop and [stop_recording] touch.  The PyAudio
    stream is the external device: a read of it is an input of the model. *)
Record t := mk {
  sample_rate : Z;
  chunk_size : Z;
  audio_queue : Queue.t bytes;
  is_recording_flag : bool
}.

(** [__init__] with its default arguments. *)
Definition init : t :=
  {| sample_rate := 16000; chunk_size := 4000;
     audio_queue := Queue.new 100; is_recording_flag := false |}.

Definition with_queue (self : t) (q : Queue.t bytes) : t :=
  {| sample_rate := sample_rate self; chunk_size := chunk_size self;
     audio_queue := q; is_recording_flag := is_recording_flag self |}.

(** The result of one pass through a loop body: the object, the lines
    printed, and the time spent waiting or sleeping. *)
Record pass := mk_pass {
  self' : t;
  printed : list str;
  waited : Z
}.

(** One pass of the [while self.is_recording_flag] loop of
    [_recording_worker]; [read] is what [self.stream.read] does. *)
Definition _recording_worker_pass (self : t) (read : outcome bytes) : pass :=
  match read with
  | Ok data =>
      match Queue.put (audio_queue self) data 100 with
      | (Ok q, w) => mk_pass (with_queue self q) [] w
      | (Raise Full, w) =>
          match Queue.get_nowait (audio_queue self) with
          | Ok (_, q1) =>
              match Queue.put q1 data 100 with
              | (Ok q2, w2) => mk_pass (with_queue self q2) [] (w + w2)
              | (Raise _, w2) => mk_pass (with_queue self q1) [] (w + w2)
              end
          | Raise _ => mk_pass self [] w
          end
      | (Raise e, w) =>
          mk_pass self [lit "Audio read error: " ++ exn_str e] (w + 10)
      end
  | Raise e => mk_pass self [lit "Audio read error: " ++ exn_str e] 10
  end.

(** [stop_recording]; joining the worker and closing the stream leave the
    fields alone. *)
Definition stop_recording (self : t) : t * list str :=
  if negb (is_recording_flag self) then (self, [])
  else
    ({| sample_rate := sample_rate self; chunk_size := chunk_size self;
        audio_queue := audio_queue self; is_recording_flag := false |},
     [lit "🛑 Stopping recording..."; lit "Recording stopped"]).

(** [get_audio_chunk]: [None] when the queue stays empty. *)
Definition get_audio_chunk (self : t) (timeout : Z) : option bytes * t * Z :=
  match Queue.get (audio_queue self) timeout with
  | (Ok (chunk, q), w) => (Some chunk, with_queue self q, w)
  | (Raise _, w) => (None, self, w)
  end.

(** [get_queue_size] *)
Definition get_queue_size (self : t) : nat := Queue.qsize (audio_queue self).

(** [clear_queue] *)
Definition clear_queue (self : t) : t :=
  with_queue self (Queue.drain (audio_queue self)).

(** What PyAudio tells about a device, as far as the selection reads it. *)
Record device_info := mk_device {
  name : str;
  maxInputChannels : Z
}.

(** The list [devices] of [_select_preferred_device]: the devices with input
    channels, each with its index. *)
Definition input_devices (infos : list device_info) : list (nat * device_info) :=
  List.filter (fun d => (0 <? maxInputChannels (snd d))%Z)
    (imap (fun i info => (i, info)) infos).

Definition preferred_patterns : list str :=
  [lit "pulse"; lit "default"; lit "sysdefault"].

(** The two nested loops: the first device, in the order of the patterns,
    whose lower-cased name contains a pattern. *)
Fixpoint first_preferred (patterns : list str)
    (devices : list (nat * device_info)) : option nat :=
  match patterns with
  | [] => None
  | pattern :: patterns' =>
      match List.find (fun d => contains (lower (name (snd d))) pattern) devices with
      | Some d => Some (fst d)
      | None => first_preferred patterns' devices
      end
  end.

(** [_select_preferred_device]; [host] is what PyAudio reports for the
    indices [0 .. get_device_count() - 1], or what it raises. *)
Definition _select_preferred_device (host : outcome (list device_info))
    : option nat * list str :=
  match host with
  | Ok infos =>
      let devices := input_devices infos in
      match first_preferred preferred_patterns devices with
      | Some idx => (Some idx, [])
      | None =>
          (match devices with
           | d :: _ => Some (fst d)
           | [] => None
           end, [])
      end
  | Raise e => (None, [lit "Warning: Could not select device: " ++ exn_str e])
  end.

(** [start_recording]: the worker thread it starts runs the passes above. *)
Definition start_recording (self : t) : t * list str :=
  if is_recording_flag self then (self, [lit "Already recording"])
  else
    ({| sample_rate := sample_rate self; chunk_size := chunk_size self;
        audio_queue := audio_queue self; is_recording_flag := true |}, []).

(** [is_recording] *)
Definition is_recording (self : t) : bool := is_recording_flag self.

End AudioCapture.

(** ** src/vosk_engine.py *)

Module VoskEngine.
Import Py.

(** What [json.loads] answers, as far as the engine looks into it: a [dict]
    whose entries are strings or something else, or a value that is no
    [dict]. *)
Inductive value :=
| VStr (s : str)
| VOther.

Inductive json :=
| JDict (d : gmap string value)
| JOther.

(** The external recogniser, [vosk.KaldiRecognizer]: every call may change
    its state and may raise. *)
Class KaldiRecognizer (R : Type) := {
  AcceptWaveform : R -> bytes -> R * outcome bool;
  Result : R -> R * outcome str;
  PartialResult : R -> R * outcome str
}.

(** Code that runs against the recogniser until it raises. *)
Definition M (R A : Type) : Type := R -> R * outcome A.

Definition ret {R A} (a : A) : M R A := fun r => (r, Ok a).

Definition bind {R A B} (m : M R A) (k : A -> M R B) : M R B :=
  fun r =>
    match m r with
    | (r', Ok a) => k a r'
    | (r', Raise e) => (r', Raise e)
    end.

Definition lift {R A} (o : outcome A) : M R A := fun r => (r, o).

Notation "x <- m ;; k" := (bind m (fun x => k))
  (at level 100, m at next level, right associativity).

(** [d.get(key, '').strip()]: an [AttributeError] when [d] is no [dict] or
    the entry is no [str]. *)
Definition get_strip (d : json) (key : string) : outcome str :=
  match d with
  | JDict d =>
      match d !! key with
      | Some (VStr s) => Ok (strip s)
      | Some VOther => Raise (Exception (lit "object has no attribute 'strip'"))
      | None => Ok (strip [])
      end
  | JOther => Raise (Exception (lit "object has no attribute 'get'"))
  end.

Section Engine.
Context {R : Type} `{KaldiRecognizer R}.
(** [json.loads] *)
Variable loads : str -> outcome json.

(** The fields the streaming methods read and write ([model] only matters to
    [start]). *)
Record t := mk {
  recognizer : option R;
  is_active : bool
}.

Definition with_recognizer (self : t) (r : R) : t :=
  {| recognizer := Some r; is_active := is_active self |}.

(** The value [process_audio] returns: a [dict] with the keys ['partial'] and
    ['final']. *)
Definition no_results : gmap string (option str) :=
  <["final" := None]> (<["partial" := None]> ∅).

(** The [try] block of [process_audio]. *)
Definition process_audio_body (audio_data : bytes)
    (results : gmap string (option str)) : M R (gmap string (option str)) :=
  accepted <- (fun r => AcceptWaveform r audio_data) ;;
  if accepted : bool then
    result_json <- Result ;;
    result <- lift (loads result_json) ;;
    text <- lift (get_strip result "text") ;;
    ret (<["final" := Some text]> results)
  else
    partial_json <- PartialResult ;;
    partial <- lift (loads partial_json) ;;
    text <- lift (get_strip partial "partial") ;;
    ret (<["partial" := Some text]> results).

(** [process_audio]: the engine, the lines printed, the [dict] returned. *)
Definition process_audio (self : t) (audio_data : bytes)
    : t * list str * gmap string (option str) :=
  match is_active self, recognizer self with
  | true, Some r =>
      let results := no_results in
      match process_audio_body audio_data results r with
      | (r', Ok results') => (with_recognizer self r', [], results')
      | (r', Raise e) =>
          (with_recognizer self r',
           [lit "Vosk processing error: " ++ exn_str e], results)
      end
  | _, _ => (self, [], no_results)
  end.

(** [get_partial_result] *)
Definition get_partial_result (self : t) : t * list str * str :=
  match is_active self, recognizer self with
  | true, Some r =>
      match (partial_json <- PartialResult ;;
             partial <- lift (loads partial_json) ;;
             lift (get_strip partial "partial")) r with
      | (r', Ok text) => (with_recognizer self r', [], text)
      | (r', Raise e) =>
          (with_recognizer self r',
           [lit "Error getting partial result: " ++ exn_str e], [])
      end
  | _, _ => (self, [], [])
  end.

(** [get_final_result] *)
Definition get_final_result (self : t) : t * list str * str :=
  match is_active self, recognizer self with
  | true, Some r =>
      match (result_json <- Result ;;
             result <- lift (loads result_json) ;;
             lift (get_strip result "text")) r with
      | (r', Ok text) => (with_recognizer self r', [], text)
      | (r', Raise e) =>
          (with_recognizer self r',
           [lit "Error getting final result: " ++ exn_str e], [])
      end
  | _, _ => (self, [], [])
  end.

(** [reset] *)
Definition reset (self : t) : t * list str :=
  ({| recognizer := None; is_active := false |}, [lit "Vosk recognizer reset"]).

(** [is_recognizing] *)
Definition is_recognizing (self : t) : bool := is_active self.

(** A stream of frames fed one by one, as the recognition loop does. *)
Fixpoint process_stream (self : t) (frames : list bytes)
    : t * list str * list (gmap string (option str)) :=
  match frames with
  | [] => (self, [], [])
  | frame :: rest =>
      let '(self1, out1, results) := process_audio self frame in
      let '(self2, out2, more) := process_stream self1 rest in
      (self2, out1 ++ out2, results :: more)
  end.

(** The caller of [process_audio] is told that the decoder state is missing:
    the call on [self] answers what no call on a running engine answers. *)
Definition reports_missing (self : t) (audio_data : bytes) : Prop :=
  forall (other : t) (r : R) (data : bytes),
    recognizer other = Some r -> is_active other = true ->
    snd (process_audio other data) <> snd (process_audio self audio_data).

(** [start].  [model_loaded] tells whether [self.model] is set ([__init__]
    sets it once), [fresh] is the recogniser that [vosk.KaldiRecognizer]
    creates. *)
Definition start (model_loaded : bool) (fresh : R) (self : t)
    : outcome t * list str :=
  if negb model_loaded then (Raise (Exception (lit "Model not loaded")), [])
  else
    let '(self, out) :=
      match recognizer self with
      | Some _ => reset self
      | None => (self, [])
      end in
    (Ok {| recognizer := Some fresh; is_active := true |},
     out ++ [lit "Vosk recognizer started"]).

End Engine.

Arguments t R : clear implicits.
Arguments mk {R}.

End VoskEngine.

(** ** main.py *)

Module LarynxApp.
Import Py.

(** An entry of [text_queue]: the [dict] built by [_send_text_update]. *)
Record update := mk_update {
  type : string;
  text : str;
  word_count : nat
}.

(** The calls the application makes into the GUI object. *)
Inductive gui_call :=
| GuiStartRecording
| GuiStopRecording.

Section App.
Context {R : Type} `{VoskEngine.KaldiRecognizer R}.
(** [json.loads] *)
Variable loads : str -> outcome VoskEngine.json.

(** The attributes of [LarynxApp].  [gui] keeps the calls made into the
    GUI, [stdout] the lines printed. *)
Record t := mk {
  audio_queue : Queue.t bytes;
  text_queue : Queue.t update;
  running : bool;
  recording : bool;
  shutdown_event : bool;
  audio_capture : option AudioCapture.t;
  vosk_engine : VoskEngine.t R;
  text_buffer : TextBuffer.t;
  gui : list gui_call;
  stdout : list str
}.

Definition set_audio_queue (self : t) (q : Queue.t bytes) : t :=
  mk q (text_queue self) (running self) (recording self) (shutdown_event self)
     (audio_capture self) (vosk_engine self) (text_buffer self) (gui self)
     (stdout self).

Definition set_text_queue (self : t) (q : Queue.t update) : t :=
  mk (audio_queue self) q (running self) (recording self) (shutdown_event self)
     (audio_capture self) (vosk_engine self) (text_buffer self) (gui self)
     (stdout self).

Definition set_recording (self : t) (b : bool) : t :=
  mk (audio_queue self) (text_queue self) (running self) b (shutdown_event self)
     (audio_capture self) (vosk_engine self) (text_buffer self) (gui self)
     (stdout self).

Definition set_audio_capture (self : t) (a : option AudioCapture.t) : t :=
  mk (audio_queue self) (text_queue self) (running self) (recording self)
     (shutdown_event self) a (vosk_engine self) (text_buffer self) (gui self)
     (stdout self).

Definition set_vosk_engine (self : t) (e : VoskEngine.t R) : t :=
  mk (audio_queue self) (text_queue self) (running self) (recording self)
     (shutdown_event self) (audio_capture self) e (text_buffer self) (gui self)
     (stdout self).

Definition set_text_buffer (self : t) (b : TextBuffer.t) : t :=
  mk (audio_queue self) (text_queue self) (running self) (recording self)
     (shutdown_event self) (audio_capture self) (vosk_engine self) b (gui self)
     (stdout self).

Definition call_gui (self : t) (c : gui_call) : t :=
  mk (audio_queue self) (text_queue self) (running self) (recording self)
     (shutdown_event self) (audio_capture self) (vosk_engine self)
     (text_buffer self) (gui self ++ [c]) (stdout self).

Definition print (self : t) (lines : list str) : t :=
  mk (audio_queue self) (text_queue self) (running self) (recording self)
     (shutdown_event self) (audio_capture self) (vosk_engine self)
     (text_buffer self) (gui self) (stdout self ++ lines).

(** [_send_text_update]: a full GUI queue drops the update. *)
Definition _send_text_update (self : t) (update_type : string) (text : str) : t :=
  let update :=
    {| type := update_type; text := text;
       word_count := TextBuffer.get_word_count (text_buffer self) |} in
  match Queue.put (text_queue self) update 100 with
  | (Ok q, _) => set_text_queue self q
  | (Raise _, _) => self
  end.

(** [_finalize_transcription].  [get_final_result] catches what the
    recogniser raises, so the [except] of this method has nothing to catch. *)
Definition _finalize_transcription (self : t) : t :=
  let '(engine, out, final_result) :=
    VoskEngine.get_final_result loads (vosk_engine self) in
  let self := print (set_vosk_engine self engine) out in
  match final_result with
  | _ :: _ =>
      let self :=
        set_text_buffer self
          (TextBuffer.add_final_text (text_buffer self) final_result) in
      _send_text_update self "final"
        (TextBuffer.get_full_text (text_buffer self))
  | [] => self
  end.

(** [_clear_queues] *)
Definition _clear_queues (self : t) : t :=
  set_text_queue (set_audio_queue self (Queue.drain (audio_queue self)))
    (Queue.drain (text_queue self)).

(** [clear_text]: the buffer is cleared, then the update is built and sent. *)
Definition clear_text (self : t) : t :=
  _send_text_update
    (set_text_buffer self (TextBuffer.clear (text_buffer self))) "clear" [].

(** One pass of the loop of [_audio_capture_worker]; the second component is
    the time spent waiting or sleeping. *)
Definition _audio_capture_worker_pass (self : t) : t * Z :=
  match audio_capture self with
  | None =>
      (print self
         [lit "Audio capture error: 'NoneType' object has no attribute 'get_audio_chunk'"],
       10%Z)
  | Some capture =>
      let '(chunk, capture, w0) := AudioCapture.get_audio_chunk capture 100 in
      let self := set_audio_capture self (Some capture) in
      match chunk with
      | Some ((_ :: _) as chunk) =>
          match Queue.put (audio_queue self) chunk 100 with
          | (Ok q, w) => (set_audio_queue self q, (w0 + w)%Z)
          | (Raise Full, w) =>
              match Queue.get_nowait (audio_queue self) with
              | Ok (_, q1) =>
                  match Queue.put q1 chunk 100 with
                  | (Ok q2, w2) => (set_audio_queue self q2, (w0 + w + w2)%Z)
                  | (Raise _, w2) => (set_audio_queue self q1, (w0 + w + w2)%Z)
                  end
              | Raise _ => (self, (w0 + w)%Z)
              end
          | (Raise e, w) =>
              (print self [lit "Audio capture error: " ++ exn_str e],
               (w0 + w + 10)%Z)
          end
      | _ => (self, w0)
      end
  end.

(** The truth value of [results[key]]: a non-empty string. *)
Definition truthy (results : gmap string (option str)) (key : string)
    : option str :=
  match results !! key with
  | Some (Some (c :: s)) => Some (c :: s)
  | _ => None
  end.

(** One pass of the loop of [_asr_worker]. *)
Definition _asr_worker_pass (self : t) : t :=
  match Queue.get (audio_queue self) 100 with
  | (Raise _, _) => self
  | (Ok (chunk, q), _) =>
      let self := set_audio_queue self q in
      let '(engine, out, results) :=
        VoskEngine.process_audio loads (vosk_engine self) chunk in
      let self := print (set_vosk_engine self engine) out in
      let self :=
        match truthy results "partial" with
        | Some partial =>
            let self :=
              set_text_buffer self
                (TextBuffer.add_partial_text (text_buffer self) partial) in
            _send_text_update self "partial"
              (TextBuffer.get_full_text (text_buffer self))
        | None => self
        end in
      match truthy results "final" with
      | Some final =>
          let self :=
            set_text_buffer self
              (TextBuffer.add_final_text (text_buffer self) final) in
          _send_text_update self "final"
            (TextBuffer.get_full_text (text_buffer self))
      | None => self
      end
  end.

(** What [_asr_worker] does once its loop has seen [recording] false. *)
Definition _asr_worker_exit (self : t) : t :=
  print (_finalize_transcription self) [lit "🧠 ASR processing thread stopped"].

(** [stop_recording].  The two [join] calls wait for the workers;
    [asr_exits] tells whether the recognition worker ran its closing
    [_finalize_transcription] before the join gave up. *)
Definition stop_recording (asr_exits : bool) (self : t) : t :=
  if negb (recording self) then self
  else
    let self := print self [lit "🛑 Stopping recording..."] in
    let self := set_recording self false in
    let self :=
      match audio_capture self with
      | Some capture =>
          let '(capture, out) := AudioCapture.stop_recording capture in
          print (set_audio_capture self (Some capture)) out
      | None => self
      end in
    let self := if asr_exits then _asr_worker_exit self else self in
    let self := _finalize_transcription self in
    call_gui self GuiStopRecording.

(** The application as [__init__] and [_init_modules] leave it; [r0] is the
    recogniser that [VoskEngine.start] creates.  The log of printed lines
    starts here. *)
Definition init (r0 : R) : t :=
  {| audio_queue := Queue.new 100;
     text_queue := Queue.new 50;
     running := false;
     recording := false;
     shutdown_event := false;
     audio_capture := Some AudioCapture.init;
     vosk_engine := VoskEngine.mk (Some r0) true;
     text_buffer := TextBuffer.init;
     gui := [];
     stdout := [] |}.

(** The statements of [_audio_capture_worker] before its loop: the thread
    that [start_recording] launches starts the capture object first.  Without
    a capture object that call raises outside any [try] and the thread ends
    there. *)
Definition _audio_capture_worker_enter (self : t) : t :=
  let self := print self [lit "🎵 Audio capture thread started"] in
  match audio_capture self with
  | Some capture =>
      let '(capture, out) := AudioCapture.start_recording capture in
      print (set_audio_capture self (Some capture)) out
  | None => self
  end.

(** The statement of [_asr_worker] before its loop. *)
Definition _asr_worker_enter (self : t) : t :=
  print self [lit "🧠 ASR processing thread started"].

(** What the threads of the application do to its queues and buffer, one
    event at a time.  [CaptureEnter] and [AsrEnter] are the first steps of
    the two threads that [start_recording] launches; they run whenever the
    scheduler lets them, like every other event.  [ClearText] is [clear_text]
    run without another thread in between; the lock of the buffer is free
    between its two statements, so [BufferClear] and [SendClear] are these
    statements as events of their own, with room for the other threads
    between them. *)
Inductive event :=
| DeviceRead (read : outcome bytes)
| CapturePass
| AsrPass
| ClearQueues
| ClearText
| Stop (asr_exits : bool)
| CaptureEnter
| AsrEnter
| BufferClear
| SendClear.

Definition step (self : t) (e : event) : t :=
  match e with
  | DeviceRead read =>
      match audio_capture self with
      | Some capture =>
          let p := AudioCapture._recording_worker_pass capture read in
          print (set_audio_capture self (Some (AudioCapture.self' p)))
            (AudioCapture.printed p)
      | None => self
      end
  | CapturePass => fst (_audio_capture_worker_pass self)
  | AsrPass => _asr_worker_pass self
  | ClearQueues => _clear_queues self
  | ClearText => clear_text self
  | Stop asr_exits => stop_recording asr_exits self
  | CaptureEnter => _audio_capture_worker_enter self
  | AsrEnter => _asr_worker_enter self
  | BufferClear => set_text_buffer self (TextBuffer.clear (text_buffer self))
  | SendClear => _send_text_update self "clear" []
  end.

Definition run (self : t) (events : list event) : t := foldl step self events.

Definition set_running (self : t) (b : bool) : t :=
  mk (audio_queue self) (text_queue self) b (recording self) (shutdown_event self)
     (audio_capture self) (vosk_engine self) (text_buffer self) (gui self)
     (stdout self).

Definition set_shutdown_event (self : t) (b : bool) : t :=
  mk (audio_queue self) (text_queue self) (running self) (recording self) b
     (audio_capture self) (vosk_engine self) (text_buffer self) (gui self)
     (stdout self).

(** [start_recording]; what [VoskEngine.start] raises leaves the method, so
    the result is the application and the exception, if any.  The two worker
    threads it launches run on their own from then on: each begins with its
    entry ([_audio_capture_worker_enter], [_asr_worker_enter]) and goes on
    with the passes above. *)
Definition start_recording (model_loaded : bool) (fresh : R) (self : t)
    : t * option exn :=
  if recording self then (self, None)
  else
    let self := print self [lit "🎤 Starting recording..."] in
    let self := set_recording self true in
    let self :=
      set_text_buffer self
        (TextBuffer.add_partial_text
           (TextBuffer.clear (text_buffer self)) []) in
    let self := _clear_queues self in
    let started :=
      if negb (VoskEngine.is_recognizing (vosk_engine self))
      then VoskEngine.start model_loaded fresh (vosk_engine self)
      else (Ok (vosk_engine self), []) in
    match started with
    | (Ok engine, out) =>
        (call_gui (print (set_vosk_engine self engine) out) GuiStartRecording,
         None)
    | (Raise e, out) => (print self out, Some e)
    end.

(** [shutdown].  [asr_exits] tells whether the recognition worker ran its
    closing [_finalize_transcription] while [shutdown] joined it. *)
Definition shutdown (asr_exits : bool) (self : t) : t :=
  let self := print self [lit "🔄 Shutting down Larynx..."] in
  let self := set_running self false in
  let self := set_recording self false in
  let self := set_shutdown_event self true in
  let self := if recording self then stop_recording asr_exits self else self in
  let self := if asr_exits then _asr_worker_exit self else self in
  let self :=
    match audio_capture self with
    | Some capture =>
        let '(capture, out) := AudioCapture.stop_recording capture in
        print (set_audio_capture self (Some capture)) out
    | None => self
    end in
  let '(engine, out) := VoskEngine.reset (vosk_engine self) in
  print (print (set_vosk_engine self engine) out)
    [lit "✅ Larynx shutdown complete"].

End App.

Arguments t R : clear implicits.
Arguments mk {R}.

End LarynxApp.

(** ** src/gui.py *)

Module LarynxGUI.
Import Py.

Inductive button_state :=
| Normal
| Disabled.

(** The attributes and widgets of [LarynxGUI] that its handlers read and
    write.  [dialogs] keeps the message boxes shown, [clipboard] is the
    clipboard of the window system. *)
Record t := mk {
  is_recording : bool;
  word_count : nat;
  start_btn : button_state;
  stop_btn : button_state;
  copy_btn : str;
  status_label : str;
  text_area : str;
  clipboard : str;
  dialogs : list str
}.

Definition nl : ascii := ascii_of_nat 10.

(** The text that [create_widgets] and [clear_text] put into the text
    area. *)
Definition placeholder : str :=
  lit "Transcribed text will appear here..." ++ [nl; nl]
  ++ lit "Click 'Start' to begin recording.".

(** [str(n)] for a count. *)
Definition str_of_nat (n : nat) : str :=
  lit (NilEmpty.string_of_uint (Nat.to_uint n)).

(** The text that [_update_status_text] writes. *)
Definition status_text (recording : bool) (count : nat) : str :=
  lit "Status: " ++ (if recording then lit "Recording" else lit "Idle")
  ++ lit " | Words: " ++ str_of_nat count.

(** [__init__] with [create_widgets]. *)
Definition init : t :=
  {| is_recording := false; word_count := 0;
     start_btn := Normal; stop_btn := Disabled;
     copy_btn := lit "📋 Copy";
     status_label := lit "Status: Idle | Words: 0";
     text_area := placeholder;
     clipboard := []; dialogs := [] |}.

(** [self.text_area.get(1.0, tk.END)]: Tk hands out the content with one
    newline behind it. *)
Definition text_area_get (self : t) : str := text_area self ++ [nl].

(** [_update_status_text] *)
Definition _update_status_text (self : t) : t :=
  mk (is_recording self) (word_count self) (start_btn self) (stop_btn self)
     (copy_btn self) (status_text (is_recording self) (word_count self))
     (text_area self) (clipboard self) (dialogs self).

(** [start_recording]: the object and the lines printed. *)
Definition start_recording (self : t) : t * list str :=
  if is_recording self then (self, [])
  else
    let self :=
      _update_status_text
        (mk true (word_count self) Disabled Normal (copy_btn self)
            (status_label self) (text_area self) (clipboard self)
            (dialogs self)) in
    let self :=
      if contains (text_area_get self) (lit "Transcribed text will appear here")
      then mk (is_recording self) (word_count self) (start_btn self)
              (stop_btn self) (copy_btn self) (status_label self) []
              (clipboard self) (dialogs self)
      else self in
    (self, [lit "🎤 Recording started"]).

(** [stop_recording] *)
Definition stop_recording (self : t) : t * list str :=
  if negb (is_recording self) then (self, [])
  else
    (_update_status_text
       (mk false (word_count self) Normal Disabled (copy_btn self)
           (status_label self) (text_area self) (clipboard self)
           (dialogs self)),
     [lit "🛑 Recording stopped"]).

(** The closure [update] that [update_text_display] hands to the main loop
    of Tk. *)
Definition update (self : t) (text : str) : t :=
  let count :=
    match strip text with
    | _ :: _ => length (split text)
    | [] => 0
    end in
  _update_status_text
    (mk (is_recording self) count (start_btn self) (stop_btn self)
        (copy_btn self) (status_label self) text (clipboard self)
        (dialogs self)).

(** [copy_to_clipboard]; the timer that restores the label of the button is
    left to the main loop. *)
Definition copy_to_clipboard (self : t) : t :=
  match strip (text_area_get self) with
  | (_ :: _) as text =>
      mk (is_recording self) (word_count self) (start_btn self)
         (stop_btn self) (lit "✅ Copied!") (status_label self)
         (text_area self) text (dialogs self)
  | [] =>
      mk (is_recording self) (word_count self) (start_btn self)
         (stop_btn self) (copy_btn self) (status_label self)
         (text_area self) (clipboard self)
         (dialogs self ++ [lit "No text to copy"])
  end.

(** [clear_text]; [yes] is the answer to the question it asks. *)
Definition clear_text (yes : bool) (self : t) : t :=
  let self :=
    mk (is_recording self) (word_count self) (start_btn self) (stop_btn self)
       (copy_btn self) (status_label self) (text_area self) (clipboard self)
       (dialogs self ++ [lit "Are you sure you want to clear all text?"]) in
  if yes then
    _update_status_text
      (mk (is_recording self) 0 (start_btn self) (stop_btn self)
          (copy_btn self) (status_label self) placeholder (clipboard self)
          (dialogs self))
  else self.

(** What a user and the application do to the window. *)
Inductive action :=
| StartRecording
| StopRecording
| Update (text : str)
| Copy
| ClearText (yes : bool).

Definition act (self : t) (a : action) : t :=
  match a with
  | StartRecording => fst (start_recording self)
  | StopRecording => fst (stop_recording self)
  | Update text => update self text
  | Copy => copy_to_clipboard self
  | ClearText yes => clear_text yes self
  end.

End LarynxGUI.

(** ** A recogniser for examples

    A stand-in for the external recogniser: it answers the next frames from a
    script and hands out the documents it was given. *)

Module Double.
Import Py.

Record t := mk {
  accepts : list (outcome bool);
  result_doc : outcome str;
  partial_doc : outcome str
}.

Definition dq : ascii := ascii_of_nat 34.

(** The document with the one member [key] of value [value]. *)
Definition document (key value : str) : str :=
  lit "{" ++ [dq] ++ key ++ [dq] ++ lit " : " ++ [dq] ++ value ++ [dq] ++ lit "}".

#[global] Instance recognizer : VoskEngine.KaldiRecognizer t := {
  AcceptWaveform r _ :=
    match accepts r with
    | o :: rest => (mk rest (result_doc r) (partial_doc r), o)
    | [] => (r, Ok false)
    end;
  Result r :=
    (mk (accepts r) (Ok (document (lit "text") [])) (partial_doc r),
     result_doc r);
  PartialResult r := (r, partial_doc r)
}.

Definition not_dq (c : ascii) : bool := negb (Ascii.eqb c dq).

(** A decoder for the documents of [document]: one member, a string without
    escapes.  Everything else raises. *)
Definition loads (s : str) : outcome VoskEngine.json :=
  let bad := Raise (Exception (lit "Expecting value")) in
  match s with
  | open :: q :: s1 =>
      if Ascii.eqb open "{" && Ascii.eqb q dq then
        let key := take_while not_dq s1 in
        match drop_while not_dq s1 with
        | _ :: sp1 :: colon :: sp2 :: _ :: s2 =>
            if Ascii.eqb sp1 " " && Ascii.eqb colon ":" && Ascii.eqb sp2 " " then
              let value := take_while not_dq s2 in
              match drop_while not_dq s2 with
              | [_; close] =>
                  if Ascii.eqb close "}" then
                    Ok (VoskEngine.JDict
                          {[ string_of_list_ascii key := VoskEngine.VStr value ]})
                  else bad
              | _ => bad
              end
            else bad
        | _ => bad
        end
      else bad
  | _ => bad
  end.

(** A silent frame, and a frame queue filled with 100 of them. *)
Definition silence : bytes := [Byte.x00; Byte.x00].

Definition full_queue : Queue.t bytes :=
  {| Queue.maxsize := 100; Queue.items := replicate 100 silence |}.

(** A capture object whose queue is full, one that holds a single chunk, and
    an application whose own queue is full. *)
Definition full_capture : AudioCapture.t :=
  AudioCapture.with_queue AudioCapture.init full_queue.

Definition one_chunk_capture : AudioCapture.t :=
  AudioCapture.with_queue AudioCapture.init
    {| Queue.maxsize := 100; Queue.items := [[Byte.x01; Byte.x00]] |}.

Definition idle_recognizer : t := mk [] (Ok (document (lit "text") [])) (Ok []).

(** An application in the middle of a recording whose recogniser still holds
    an utterance that no frame has confirmed. *)
Definition pending_recognizer : t :=
  mk [] (Ok (document (lit "text") (lit "see you tomorrow"))) (Ok []).


(** An application that shows the partial text "hello", has one frame
    waiting, and a recogniser that will confirm the utterance with an empty
    text. *)
Definition empty_final_recognizer : t :=
  mk [Ok true] (Ok (document (lit "text") [])) (Ok []).

Definition partial_shown_app : LarynxApp.t t :=
  LarynxApp.set_audio_queue
    (LarynxApp.set_text_buffer
       (LarynxApp.set_recording (LarynxApp.init empty_final_recognizer) true)
       (TextBuffer.add_partial_text TextBuffer.init (lit "hello")))
    {| Queue.maxsize := 100; Queue.items := [silence] |}.

Definition full_app : LarynxApp.t t :=
  LarynxApp.set_audio_capture
    (LarynxApp.set_audio_queue (LarynxApp.init idle_recognizer) full_queue)
    (Some one_chunk_capture).

(** A recording in which the recognition worker confirms "hello world"
    between the two statements of [clear_text]. *)
Definition two_word_recognizer : t :=
  mk [Ok true] (Ok (document (lit "text") (lit "hello world"))) (Ok []).

Definition racing_clear : list LarynxApp.event :=
  [LarynxApp.CaptureEnter; LarynxApp.AsrEnter;
   LarynxApp.DeviceRead (Ok silence); LarynxApp.CapturePass;
   LarynxApp.BufferClear; LarynxApp.AsrPass; LarynxApp.SendClear].

Definition raced_app : LarynxApp.t t :=
  LarynxApp.run loads
    (fst (LarynxApp.start_recording true two_word_recognizer
            (LarynxApp.init two_word_recognizer)))
    racing_clear.

(** An application after a recording in which the device delivered one frame
    that the capture thread did not fetch before the stop. *)
Definition stale_frame : bytes := [Byte.x01; Byte.x00].

Definition stale_app : LarynxApp.t t :=
  LarynxApp.run loads
    (fst (LarynxApp.start_recording true idle_recognizer
            (LarynxApp.init idle_recognizer)))
    [LarynxApp.CaptureEnter; LarynxApp.AsrEnter;
     LarynxApp.DeviceRead (Ok stale_frame); LarynxApp.Stop true].

End Double.

(** ** The scenario of the transcript buffer *)

Module Scenario.
Import Py.

Definition after_partial_1 : TextBuffer.t :=
  TextBuffer.add_partial_text TextBuffer.init (lit "hello").
Definition after_partial_2 : TextBuffer.t :=
  TextBuffer.add_partial_text after_partial_1 (lit "hello world").
Definition after_final_1 : TextBuffer.t :=
  TextBuffer.add_final_text after_partial_2 (lit "hello world").
Definition after_final_2 : TextBuffer.t :=
  TextBuffer.add_final_text after_final_1 (lit "this is a test. hello world").

(** The observations of the scenario, with the last display text and the last
    word count left open. *)
Definition observed (last_text : str) (last_count : nat) : Prop :=
  TextBuffer.get_full_text after_partial_1 = lit "Hello" /\
  TextBuffer.get_full_text after_partial_2 = lit "Hello world" /\
  TextBuffer.get_full_text after_final_1 = lit "Hello world" /\
  TextBuffer.get_word_count after_final_1 = 2 /\
  TextBuffer.get_full_text after_final_2 = last_text /\
  TextBuffer.get_word_count after_final_2 = last_count /\
  TextBuffer.get_full_text (TextBuffer.clear after_final_2) = lit "".

End Scenario.

(** ** One-pass scanners

    The two substitutions of the buffer, written as scans that carry one bit
    of state.  They are proved equal to [re_sub] on the two patterns and
    serve the proofs. *)

Module Scan.
Import Py.

(** [re.sub] of a whitespace run by one space; [in_run] tells that the
    previous character was whitespace and its space has been written. *)
Fixpoint squeeze (in_run : bool) (s : str) : str :=
  match s with
  | [] => []
  | c :: s' =>
      if isspace c then
        if in_run then squeeze true s' else " "%char :: squeeze true s'
      else c :: squeeze false s'
  end.

(** The capitalization behind [.!?]; [armed] tells that such a character and
    only whitespace lie directly before. *)
Fixpoint capitalize (armed : bool) (s : str) : str :=
  match s with
  | [] => []
  | c :: s' =>
      if armed && is_lower c then upper_char c :: capitalize false s'
      else c :: capitalize (is_sentence_end c || (armed && isspace c)) s'
  end.

(** [formatted[0].upper() + formatted[1:]] on a non-empty text. *)
Definition cap_first (s : str) : str :=
  match s with
  | c :: rest => upper [c] ++ rest
  | [] => []
  end.

(** A text in display form: every whitespace character is one single space
    between two other characters.  [after_space] tells that the character
    before the text is whitespace (or that the text starts here). *)
Fixpoint tidy_from (after_space : bool) (s : str) : Prop :=
  match s with
  | [] => after_space = false
  | c :: s' =>
      if isspace c then
        after_space = false /\ c = " "%char /\ tidy_from true s'
      else tidy_from false s'
  end.

(** The whitespace-token count in the words of the specification: the number
    of places where a token starts, a character that is not whitespace and
    stands first or behind whitespace.  [in_token] tells that the character
    before belongs to a token. *)
Fixpoint token_count (in_token : bool) (s : str) : nat :=
  match s with
  | [] => 0
  | c :: s' =>
      if isspace c then token_count false s'
      else (if in_token then 0 else 1) + token_count true s'
  end.

End Scan.

(** ** Notions the properties are stated with *)

(** A mutator of the buffer other than [clear]. *)
Definition is_add (o : TextBuffer.op) : Prop :=
  match o with
  | TextBuffer.Clear => False
  | _ => True
  end.

(** [sep.join(words)] of Python, to say what [_clean_text] computes. *)
Fixpoint join (sep : Py.str) (words : list Py.str) : Py.str :=
  match words with
  | [] => []
  | [w] => w
  | w :: rest => w ++ sep ++ join sep rest
  end.

(** The text that a mutator of the buffer commits to the final text. *)
Definition committed (o : TextBuffer.op) : Py.str :=
  match o with
  | TextBuffer.AddFinal (c :: text) =>
      TextBuffer._clean_text (c :: text) ++ Py.lit " "
  | _ => []
  end.

(** [text.isascii()]: below 128 the characters of the model are the
    characters of Python, with their classes and their capitals. *)
Definition isascii (text : Py.str) : bool :=
  forallb (fun c => N.ltb (N_of_ascii c) 128) text.


(** [shown] is [text] with some of its letters a to z set as capitals and
    nothing else changed. *)
Definition recased (text shown : Py.str) : Prop :=
  Forall2 (fun a b => b = a \/ (Py.is_lower a = true /\ b = Py.upper_char a))
    text shown.


Module Pipeline.
Import Py.

Section Notions.
Context {R : Type}.

(** The two frame queues of the application, its own and the one inside the
    capture object, hold no more than [n] frames. *)
Definition frame_queues_within (n : nat) (self : LarynxApp.t R) : Prop :=
  Queue.within n (LarynxApp.audio_queue self) /\
  match LarynxApp.audio_capture self with
  | Some capture => Queue.within n (AudioCapture.audio_queue capture)
  | None => True
  end.

(** The state in which [stop_recording] has cleared the flag and stopped the
    capture object, before any finalization. *)
Definition stopped (self : LarynxApp.t R) : LarynxApp.t R :=
  let self :=
    LarynxApp.set_recording
      (LarynxApp.print self [lit "🛑 Stopping recording..."]) false in
  match LarynxApp.audio_capture self with
  | Some capture =>
      let '(capture, out) := AudioCapture.stop_recording capture in
      LarynxApp.print (LarynxApp.set_audio_capture self (Some capture)) out
  | None => self
  end.

(** The capture loop run over what the device hands out, read by read. *)
Definition record (capture : AudioCapture.t) (reads : list (outcome bytes))
    : AudioCapture.t :=
  foldl (fun c read =>
           AudioCapture.self' (AudioCapture._recording_worker_pass c read))
    capture reads.

(** The frames among the reads. *)
Definition frames_of (reads : list (outcome bytes)) : list bytes :=
  omap (fun read => match read with Ok data => Some data | Raise _ => None end)
    reads.

(** A text that formatting leaves as it is. *)
Definition display_form (text : str) : Prop :=
  TextBuffer._format_text text = text.

(** An update whose text is in display form.  Its word count is read from
    the buffer when the update is sent, in a step of its own after the text
    was taken, and another thread may change the buffer in between: the two
    are not required to agree. *)
Definition update_sound (u : LarynxApp.update) : Prop :=
  display_form (LarynxApp.text u).

(** The queue to the GUI holds no more than [n] updates, each of them
    sound. *)
Definition text_queue_sound (n : nat) (self : LarynxApp.t R) : Prop :=
  Queue.within n (LarynxApp.text_queue self) /\
  Forall update_sound (Queue.items (LarynxApp.text_queue self)).

End Notions.

Section Commands.
Context {R : Type} `{VoskEngine.KaldiRecognizer R}.
Variable loads : str -> outcome VoskEngine.json.

(** The events of the application together with the two commands that begin
    and end its life.  An application object exists with its model loaded
    only ([_init_modules] leaves the process otherwise). *)
Inductive command :=
| Event (e : LarynxApp.event)
| Start (fresh : R)
| Shutdown (asr_exits : bool).



(** A command other than the shutdown. *)
Definition is_live (c : command) : Prop :=
  match c with
  | Shutdown _ => False
  | _ => True
  end.

Definition obey (self : LarynxApp.t R) (c : command) : LarynxApp.t R :=
  match c with
  | Event e => LarynxApp.step loads self e
  | Start fresh => fst (LarynxApp.start_recording true fresh self)
  | Shutdown asr_exits => LarynxApp.shutdown loads asr_exits self
  end.

Definition obey_all (self : LarynxApp.t R) (commands : list command)
    : LarynxApp.t R :=
  foldl obey self commands.

(** The window after the calls that the application made into it. *)
Definition window (calls : list LarynxApp.gui_call) : LarynxGUI.t :=
  foldl (fun g c =>
           match c with
           | LarynxApp.GuiStartRecording => fst (LarynxGUI.start_recording g)
           | LarynxApp.GuiStopRecording => fst (LarynxGUI.stop_recording g)
           end)
    LarynxGUI.init calls.

(** The window that the calls of the application built shows the state of
    the recording flag. *)
Definition window_follows (self : LarynxApp.t R) : Prop :=
  LarynxGUI.is_recording (window (LarynxApp.gui self))
  = LarynxApp.recording self.

End Commands.

End Pipeline.

(** * Properties *)

Import Py.

(** ** Characters *)

Ltac by_cases_on_char c :=
  destruct c as [[] [] [] [] [] [] [] []]; vm_compute; try reflexivity;
  try discriminate; try tauto.

Lemma space_not_lower (c : ascii) : isspace c = true -> is_lower c = false.
Proof. by_cases_on_char c. Qed.

Lemma space_not_sentence_end (c : ascii) :
  isspace c = true -> is_sentence_end c = false.
Proof. by_cases_on_char c. Qed.

Lemma isspace_upper_char (c : ascii) : isspace (upper_char c) = isspace c.
Proof. by_cases_on_char c. Qed.

Lemma upper_char_space (c : ascii) : isspace c = true -> upper_char c = c.
Proof. by_cases_on_char c. Qed.

Lemma upper_char_idem (c : ascii) : upper_char (upper_char c) = upper_char c.
Proof. by_cases_on_char c. Qed.

Lemma upper_of_lower (c : ascii) :
  is_lower c = true ->
  is_lower (upper_char c) = false /\
  is_sentence_end (upper_char c) = false /\
  isspace (upper_char c) = false.
Proof. by_cases_on_char c. Qed.

Lemma lower_upper_char (c : ascii) : lower_char (upper_char c) = lower_char c.
Proof. by_cases_on_char c. Qed.

(** ** Occurrence of one text in another *)

Lemma startswith_spec (s p : str) :
  startswith s p = true <-> exists b, s = p ++ b.
Proof.
  revert s. induction p as [|a p IH]; intros s.
  - destruct s; simpl; (split; [eauto | reflexivity]).
  - destruct s as [|c s]; simpl;
      [split; [discriminate | intros [b Hb]; discriminate Hb]|].
    rewrite andb_true_iff, Ascii.eqb_eq, IH. split.
    + intros [-> [b ->]]. eauto.
    + intros [b [= -> ->]]. eauto.
Qed.

Lemma contains_spec (s p : str) :
  contains s p = true <-> exists a b, s = a ++ p ++ b.
Proof.
  induction s as [|c s IH]; cbn [contains].
  - rewrite orb_false_r, startswith_spec. split.
    + intros [b Hb]. exists [], b. exact Hb.
    + intros (a & b & Hab). symmetry in Hab.
      apply app_eq_nil in Hab as [-> Hab]. apply app_eq_nil in Hab as [-> ->].
      exists []. reflexivity.
  - rewrite orb_true_iff, startswith_spec, IH. split.
    + intros [[b Hb] | (a & b & ->)].
      * exists [], b. exact Hb.
      * exists (c :: a), b. reflexivity.
    + intros (a & b & Hab). destruct a as [|c' a].
      * left. exists b. exact Hab.
      * right. injection Hab as _ Hab. eauto.
Qed.

(** ** Stripping *)

Lemma take_drop_while (p : ascii -> bool) (s : str) :
  take_while p s ++ drop_while p s = s.
Proof. induction s as [|c s IH]; simpl; [|destruct (p c); simpl; rewrite ?IH]; reflexivity. Qed.

Lemma drop_length_take_while (p : ascii -> bool) (s : str) :
  drop (length (take_while p s)) s = drop_while p s.
Proof. induction s as [|c s IH]; simpl; [|destruct (p c); simpl]; auto. Qed.

Lemma take_length_take_while (p : ascii -> bool) (s : str) :
  take (length (take_while p s)) s = take_while p s.
Proof. induction s as [|c s IH]; simpl; [|destruct (p c); simpl; rewrite ?IH]; reflexivity. Qed.

Lemma take_while_all (p : ascii -> bool) (s : str) :
  Forall (fun c => p c = true) (take_while p s).
Proof.
  induction s as [|c s IH]; simpl; [constructor|].
  destruct (p c) eqn:E; constructor; assumption.
Qed.

Lemma drop_while_head (p : ascii -> bool) (s : str) (c : ascii) (r : str) :
  drop_while p s = c :: r -> p c = false.
Proof.
  induction s as [|d s IH]; simpl; [discriminate|].
  destruct (p d) eqn:E; [exact IH|]. intros [= <- _]. exact E.
Qed.

Lemma rstrip_idem (s : str) : rstrip (rstrip s) = rstrip s.
Proof.
  induction s as [|c s IH]; simpl; [reflexivity|].
  destruct (rstrip s) as [|d r] eqn:E.
  - destruct (isspace c) eqn:Ec; simpl; [reflexivity | rewrite Ec; reflexivity].
  - simpl in *. rewrite IH. reflexivity.
Qed.

Lemma rstrip_cons_head (s : str) (c : ascii) (r : str) :
  rstrip s = c :: r -> exists s', s = c :: s'.
Proof.
  destruct s as [|d s]; simpl; [discriminate|].
  destruct (rstrip s); [destruct (isspace d)|]; intros [= -> _]; eauto.
Qed.

(** ** Transcript buffer *)

(** C1, as stated: the scenario does not end with the display text
    "Hello world This is a test. Hello world" and seven words. *)
Lemma scenario_as_stated_fails :
  ~ Scenario.observed (lit "Hello world This is a test. Hello world") 7.
Proof.
  unfold Scenario.observed. intros (_ & _ & _ & _ & Htext & _).
  vm_compute in Htext. discriminate Htext.
Qed.

(** C1, amended: the scenario shows "Hello", "Hello world", "Hello world" with
    two words, then "Hello world this is a test. Hello world" with eight
    words (the second final follows the first without a sentence break, so
    its first letter stays small), and the empty text after [clear]. *)
Theorem scenario_observed :
  Scenario.observed (lit "Hello world this is a test. Hello world") 8.
Proof. unfold Scenario.observed. repeat split; vm_compute; reflexivity. Qed.

(** C2, as stated: a final with empty text does not clear the partial text. *)
Lemma add_final_empty_keeps_partial :
  TextBuffer.partial_text
    (TextBuffer.add_final_text
       (TextBuffer.add_partial_text TextBuffer.init (lit "hello")) (lit ""))
  = lit "hello"
  /\ ~ (forall (self : TextBuffer.t) (text : str),
          TextBuffer.partial_text (TextBuffer.add_final_text self text) = []).
Proof.
  split; [vm_compute; reflexivity |].
  intros Hall.
  specialize (Hall (TextBuffer.add_partial_text TextBuffer.init (lit "hello")) (lit "")).
  vm_compute in Hall. discriminate Hall.
Qed.

(** C2, amended: for every non-empty text (whitespace-only included)
    [add_final_text] appends the normalized text and one space to the final
    text and empties the partial text; for the empty text it leaves the buffer
    as it is. *)
Theorem add_final_text_effect (self : TextBuffer.t) (text : str) :
  (text = [] /\ TextBuffer.add_final_text self text = self) \/
  (text <> [] /\
   TextBuffer.final_text (TextBuffer.add_final_text self text)
   = TextBuffer.final_text self ++ TextBuffer._clean_text text ++ lit " " /\
   TextBuffer.partial_text (TextBuffer.add_final_text self text) = []).
Proof.
  destruct text as [|c text]; [left | right]; simpl; auto.
Qed.

Lemma exec_add_prefix (self : TextBuffer.t) (o : TextBuffer.op) :
  is_add o ->
  TextBuffer.final_text self `prefix_of` TextBuffer.final_text (TextBuffer.exec self o).
Proof.
  destruct o as [text|text|]; simpl; intros Hadd.
  - destruct text; simpl; reflexivity.
  - destruct text; simpl; [reflexivity | apply prefix_app_r; reflexivity].
  - destruct Hadd.
Qed.

Lemma run_snoc (self : TextBuffer.t) (ops : list TextBuffer.op) (o : TextBuffer.op) :
  TextBuffer.run self (ops ++ [o]) = TextBuffer.exec (TextBuffer.run self ops) o.
Proof. unfold TextBuffer.run. rewrite foldl_app. reflexivity. Qed.

Lemma run_add_prefix (ops : list TextBuffer.op) (self : TextBuffer.t) :
  Forall is_add ops ->
  TextBuffer.final_text self `prefix_of` TextBuffer.final_text (TextBuffer.run self ops).
Proof.
  intros Hall. revert self.
  induction Hall as [|o ops Ho _ IH]; intros self; simpl; [reflexivity |].
  etransitivity; [apply (exec_add_prefix self o Ho) | apply IH].
Qed.

(** C7: along every sequence of [add_partial_text] and [add_final_text]
    calls the final text before a call is a prefix of the final text after
    it, so the final text of the start is a prefix of the final text of the
    end; [clear] resets it to the empty text. *)
Theorem final_text_append_only
    (self : TextBuffer.t) (ops : list TextBuffer.op) (Hadd : Forall is_add ops) :
  (forall k : nat,
      TextBuffer.final_text (TextBuffer.run self (take k ops))
      `prefix_of` TextBuffer.final_text (TextBuffer.run self (take (S k) ops))) /\
  TextBuffer.final_text self `prefix_of` TextBuffer.final_text (TextBuffer.run self ops) /\
  TextBuffer.final_text (TextBuffer.clear (TextBuffer.run self ops)) = [].
Proof.
  split; [| split; [apply run_add_prefix; assumption | reflexivity]].
  intros k.
  destruct (ops !! k) as [o|] eqn:Hk.
  - rewrite (take_S_r _ _ _ Hk), run_snoc.
    apply exec_add_prefix.
    eapply Forall_lookup_1; eassumption.
  - apply lookup_ge_None in Hk.
    rewrite !take_ge by lia. reflexivity.
Qed.

Lemma final_text_append_only_witness :
  let ops := [TextBuffer.AddPartial (lit "hello");
              TextBuffer.AddFinal (lit "hello world");
              TextBuffer.AddPartial (lit "how are");
              TextBuffer.AddFinal (lit "how are you")] in
  Forall is_add ops /\
  TextBuffer.final_text TextBuffer.init
  `prefix_of` TextBuffer.final_text (TextBuffer.run TextBuffer.init ops).
Proof.
  intros ops.
  assert (Hadd : Forall is_add ops) by (repeat constructor).
  split; [exact Hadd |].
  exact (proj1 (proj2 (final_text_append_only TextBuffer.init ops Hadd))).
Defined.

Lemma token_count_in_token (w rest : str) :
  Forall (fun c => negb (isspace c) = true) w ->
  Scan.token_count true (w ++ rest) = Scan.token_count true rest.
Proof.
  induction 1 as [|c w Hc _ IH]; simpl; [reflexivity|].
  apply negb_true_iff in Hc. rewrite Hc. exact IH.
Qed.

Lemma token_count_at_gap (s : str) :
  match s with c :: _ => isspace c = true | [] => True end ->
  Scan.token_count true s = Scan.token_count false s.
Proof. destruct s as [|c s]; simpl; [reflexivity|]. intros ->. reflexivity. Qed.

Lemma drop_while_not_space_head (s : str) :
  match drop_while (fun x => negb (isspace x)) s with
  | c :: _ => isspace c = true
  | [] => True
  end.
Proof.
  destruct (drop_while _ s) as [|c r] eqn:E; [exact I|].
  apply drop_while_head in E. apply negb_false_iff in E. exact E.
Qed.

(** [str.split] yields as many words as the text has token starts. *)
Lemma split_length_token_count (s : str) :
  length (split s) = Scan.token_count false s.
Proof.
  remember (length s) as n eqn:Hn.
  revert s Hn. induction n as [n IH] using lt_wf_ind. intros s Hn.
  destruct s as [|c s]; [reflexivity|].
  rewrite split_equation_2. simpl Scan.token_count.
  destruct (isspace c) eqn:Ec.
  - rewrite split_clause_2_equation_1.
    apply (IH (length s)); [subst n; simpl; lia | reflexivity].
  - rewrite split_clause_2_equation_2. cbv zeta. simpl length.
    rewrite drop_length_take_while.
    rewrite (IH (length (drop_while (fun x => negb (isspace x)) s)));
      [| |reflexivity].
    + f_equal.
      rewrite <- (take_drop_while (fun x => negb (isspace x)) s) at 2.
      rewrite token_count_in_token by apply take_while_all.
      symmetry. apply token_count_at_gap, drop_while_not_space_head.
    + subst n. simpl.
      rewrite <- (take_drop_while (fun x => negb (isspace x)) s) at 2.
      rewrite length_app. lia.
Qed.

(** C8: the word count is the number of whitespace-separated tokens of the
    final text, it is the same for two buffers with the same final text
    whatever their partial text, and [add_partial_text] never changes it: of
    the three mutators only [add_final_text] and [clear] can. *)
Theorem word_count_ignores_partial (self : TextBuffer.t) (text : str) :
  TextBuffer.get_word_count self
  = Scan.token_count false (TextBuffer.final_text self) /\
  TextBuffer.get_word_count self = length (split (TextBuffer.final_text self)) /\
  (forall (partial : str) (n : Z),
      TextBuffer.get_word_count
        (TextBuffer.mk (TextBuffer.final_text self) partial n)
      = TextBuffer.get_word_count self) /\
  TextBuffer.get_word_count (TextBuffer.add_partial_text self text)
  = TextBuffer.get_word_count self /\
  (forall o : TextBuffer.op,
      match o with
      | TextBuffer.AddPartial _ =>
          TextBuffer.get_word_count (TextBuffer.exec self o)
          = TextBuffer.get_word_count self
      | _ => True
      end).
Proof.
  split; [apply split_length_token_count|].
  repeat split.
  - destruct text; reflexivity.
  - intros [t| |]; try exact I. destruct t; reflexivity.
Qed.

(** C9: whatever the buffer held, after [clear] both fields are empty, the
    display text is empty and the word count is zero. *)
Theorem clear_is_total (self : TextBuffer.t) :
  TextBuffer.final_text (TextBuffer.clear self) = [] /\
  TextBuffer.partial_text (TextBuffer.clear self) = [] /\
  TextBuffer.get_full_text (TextBuffer.clear self) = lit "" /\
  TextBuffer.get_word_count (TextBuffer.clear self) = 0.
Proof. repeat split. Qed.

(** ** The substitutions as scans *)

Lemma squeeze_true_spaces (ws rest : str) :
  Forall (fun c => isspace c = true) ws ->
  Scan.squeeze true (ws ++ rest) = Scan.squeeze true rest.
Proof.
  induction 1 as [|c ws Hc _ IH]; simpl; [reflexivity|].
  rewrite Hc. exact IH.
Qed.

Lemma squeeze_head_free (s : str) :
  match s with c :: _ => isspace c = false | [] => True end ->
  Scan.squeeze true s = Scan.squeeze false s.
Proof. destruct s as [|c s]; simpl; [reflexivity|]. intros ->. reflexivity. Qed.

Lemma drop_while_head_free (p : ascii -> bool) (s : str) :
  match drop_while p s with c :: _ => p c = false | [] => True end.
Proof.
  destruct (drop_while p s) as [|c r] eqn:E; [exact I|].
  eapply drop_while_head; eassumption.
Qed.

Lemma re_sub_spaces_is_squeeze (s : str) :
  re_sub pat_spaces (fun _ => lit " ") s = Scan.squeeze false s.
Proof.
  remember (length s) as n eqn:Hn.
  revert s Hn. induction n as [n IH] using lt_wf_ind. intros s Hn.
  destruct s as [|c s]; [reflexivity|].
  rewrite re_sub_equation_2. simpl pat_spaces. simpl Scan.squeeze.
  destruct (isspace c) eqn:Ec.
  - rewrite re_sub_clause_2_equation_1, drop_length_take_while.
    rewrite (IH (length (drop_while isspace s))); [| |reflexivity].
    + simpl. f_equal.
      rewrite <- (take_drop_while isspace s) at 2.
      rewrite squeeze_true_spaces by apply take_while_all.
      symmetry. apply squeeze_head_free, drop_while_head_free.
    + subst n. simpl.
      rewrite <- (take_drop_while isspace s) at 2. rewrite length_app. lia.
  - rewrite re_sub_clause_2_equation_2. f_equal.
    apply (IH (length s)); [subst n; simpl; lia | reflexivity].
Qed.

Lemma capitalize_spaces (armed : bool) (ws rest : str) :
  Forall (fun c => isspace c = true) ws ->
  Scan.capitalize armed (ws ++ rest) = ws ++ Scan.capitalize armed rest.
Proof.
  induction 1 as [|c ws Hc _ IH]; simpl; [reflexivity|].
  rewrite (space_not_lower c Hc), (space_not_sentence_end c Hc), Hc.
  rewrite andb_false_r, andb_true_r. simpl. rewrite IH. reflexivity.
Qed.

Lemma capitalize_armed_in_vain (s : str) :
  match s with
  | c :: _ => isspace c = false /\ is_lower c = false
  | [] => True
  end ->
  Scan.capitalize true s = Scan.capitalize false s.
Proof.
  destruct s as [|c s]; simpl; [reflexivity|]. intros [-> ->].
  simpl. rewrite orb_false_r. reflexivity.
Qed.

Lemma re_sub_sentence_start_is_capitalize (s : str) :
  re_sub pat_sentence_start repl_sentence_start s = Scan.capitalize false s.
Proof.
  remember (length s) as n eqn:Hn.
  revert s Hn. induction n as [n IH] using lt_wf_ind. intros s Hn.
  destruct s as [|c s]; [reflexivity|].
  rewrite re_sub_equation_2.
  assert (Hrest : re_sub pat_sentence_start repl_sentence_start s
                  = Scan.capitalize false s).
  { apply (IH (length s)); [subst n; simpl; lia | reflexivity]. }
  simpl pat_sentence_start. simpl Scan.capitalize.
  destruct (is_sentence_end c) eqn:Ec; simpl orb;
    [| rewrite re_sub_clause_2_equation_2, Hrest; reflexivity].
  rewrite drop_length_take_while.
  pose proof (take_drop_while isspace s) as Hsplit.
  pose proof (take_while_all isspace s) as Hws.
  pose proof (drop_while_head_free isspace s) as Hhead.
  destruct (drop_while isspace s) as [|l rest] eqn:Hdrop.
  - rewrite re_sub_clause_2_equation_2, Hrest. f_equal.
    symmetry. rewrite <- Hsplit.
    rewrite !capitalize_spaces by assumption. reflexivity.
  - destruct (is_lower l) eqn:El.
    + rewrite re_sub_clause_2_equation_1.
      set (k := length (take_while isspace s)).
      assert (Htake : take (S k) s = take_while isspace s ++ [l]).
      { rewrite <- Hsplit at 1. unfold k.
        rewrite take_app_ge by lia.
        replace (S _ - _) with 1 by lia. reflexivity. }
      assert (Hdrop' : drop (S k) s = rest).
      { rewrite <- Hsplit at 1. unfold k.
        rewrite drop_app_ge by lia.
        replace (S _ - _) with 1 by lia. reflexivity. }
      rewrite Htake, Hdrop'.
      rewrite (IH (length rest)); [| |reflexivity].
      * unfold repl_sentence_start.
        replace (length (c :: take_while isspace s ++ [l]) - 1)
          with (length (c :: take_while isspace s))
          by (simpl; rewrite length_app; simpl; lia).
        change (c :: take_while isspace s ++ [l])
          with ((c :: take_while isspace s) ++ [l]).
        rewrite take_app_length, drop_app_length.
        rewrite <- Hsplit at 2.
        rewrite capitalize_spaces by assumption.
        simpl. rewrite El. simpl. rewrite <- !app_assoc. reflexivity.
      * subst n. simpl. rewrite <- Hsplit, length_app. simpl. lia.
    + rewrite re_sub_clause_2_equation_2, Hrest. f_equal.
      symmetry. rewrite <- Hsplit.
      rewrite !capitalize_spaces by assumption. f_equal.
      apply capitalize_armed_in_vain. split; assumption.
Qed.

(** [_clean_text] and [_format_text] through the scans. *)
Lemma clean_text_scan (text : str) :
  TextBuffer._clean_text text = Scan.squeeze false (strip text).
Proof.
  destruct text; [reflexivity|].
  unfold TextBuffer._clean_text. apply re_sub_spaces_is_squeeze.
Qed.

Lemma format_text_scan (text : str) :
  TextBuffer._format_text text
  = Scan.capitalize false (Scan.cap_first (Scan.squeeze false (strip text))).
Proof.
  destruct text as [|c text]; [reflexivity|].
  unfold TextBuffer._format_text.
  rewrite re_sub_sentence_start_is_capitalize, re_sub_spaces_is_squeeze.
  f_equal. destruct (Scan.squeeze false (strip (c :: text))); reflexivity.
Qed.

(** ** Display form *)

Lemma tidy_squeeze (after_space : bool) (s : str) :
  Scan.tidy_from after_space s -> Scan.squeeze after_space s = s.
Proof.
  revert after_space. induction s as [|c s IH]; intros p; simpl; [reflexivity|].
  destruct (isspace c).
  - intros (-> & -> & Hs). f_equal. apply IH, Hs.
  - intros Hs. f_equal. apply IH, Hs.
Qed.

Lemma tidy_weaken (s : str) : Scan.tidy_from true s -> Scan.tidy_from false s.
Proof.
  destruct s as [|c s]; simpl; [discriminate|].
  destruct (isspace c); [|auto]. intros (Hf & _). discriminate Hf.
Qed.

Lemma tidy_lstrip (s : str) : Scan.tidy_from true s -> lstrip s = s.
Proof.
  destruct s as [|c s]; simpl; [reflexivity|].
  unfold lstrip. simpl. destruct (isspace c); [|reflexivity].
  intros (Hf & _). discriminate Hf.
Qed.

Lemma tidy_rstrip (after_space : bool) (s : str) :
  Scan.tidy_from after_space s -> rstrip s = s.
Proof.
  revert after_space. induction s as [|c s IH]; intros p; simpl; [reflexivity|].
  intros Hs.
  assert (Hrest : exists q, Scan.tidy_from q s).
  { destruct (isspace c); [destruct Hs as (_ & _ & Hs)|]; eauto. }
  destruct Hrest as [q Hq]. rewrite (IH q Hq).
  destruct s as [|d s]; [|reflexivity].
  destruct (isspace c); [|reflexivity].
  destruct Hs as (_ & _ & Hf). discriminate Hf.
Qed.

Lemma squeeze_tidy (after_space : bool) (s : str) :
  rstrip s = s -> (after_space = true -> s <> []) ->
  Scan.tidy_from after_space (Scan.squeeze after_space s).
Proof.
  revert after_space. induction s as [|c s IH]; intros p Hr Hne; simpl.
  - destruct p; [exfalso; apply Hne; reflexivity | reflexivity].
  - simpl in Hr.
    destruct (isspace c) eqn:Ec.
    + assert (Hs : rstrip s = s /\ s <> []).
      { destruct (rstrip s) as [|d r] eqn:E; [discriminate Hr|].
        injection Hr as Hr. split; [exact Hr | rewrite <- Hr; discriminate]. }
      destruct Hs as [Hs Hne'].
      destruct p; simpl; [apply IH; auto|].
      change (isspace " "%char) with true. cbv iota.
      repeat split. apply IH; auto.
    + assert (Hs : rstrip s = s).
      { destruct (rstrip s) as [|d r] eqn:E.
        - destruct s; [reflexivity | discriminate Hr].
        - injection Hr as Hr. exact Hr. }
      simpl. rewrite Ec. apply IH; [exact Hs | discriminate].
Qed.

(** The text [_clean_text] and [_format_text] start from is empty or in
    display form. *)
Lemma normalized_tidy (s : str) :
  Scan.squeeze false (strip s) = [] \/
  Scan.tidy_from true (Scan.squeeze false (strip s)).
Proof.
  unfold strip.
  destruct (rstrip (lstrip s)) as [|c r] eqn:E; [left; reflexivity | right].
  assert (Hc : isspace c = false).
  { destruct (rstrip_cons_head _ _ _ E) as [s' Hs'].
    eapply drop_while_head. exact Hs'. }
  rewrite <- (squeeze_head_free (c :: r)) by exact Hc.
  apply squeeze_tidy; [|discriminate].
  rewrite <- E. apply rstrip_idem.
Qed.

Lemma tidy_cap_first (after_space : bool) (s : str) :
  Scan.tidy_from after_space s -> Scan.tidy_from after_space (Scan.cap_first s).
Proof.
  destruct s as [|c s]; simpl; [auto|].
  rewrite isspace_upper_char.
  destruct (isspace c) eqn:Ec; [|auto].
  rewrite (upper_char_space c Ec). auto.
Qed.

Lemma tidy_capitalize (armed after_space : bool) (s : str) :
  Scan.tidy_from after_space s ->
  Scan.tidy_from after_space (Scan.capitalize armed s).
Proof.
  revert armed after_space.
  induction s as [|c s IH]; intros a p; simpl; [auto|].
  destruct (a && is_lower c) eqn:Ea; simpl.
  - apply andb_prop in Ea as [_ El].
    destruct (upper_of_lower c El) as (_ & _ & ->).
    destruct (isspace c) eqn:Ec.
    + rewrite (space_not_lower c Ec) in El. discriminate El.
    + apply IH.
  - destruct (isspace c).
    + intros (Hp & Hc & Hs). repeat split; auto.
    + apply IH.
Qed.

Lemma tidy_strip (s : str) : Scan.tidy_from true s -> strip s = s.
Proof.
  intros Hs. unfold strip. rewrite (tidy_lstrip s Hs).
  eapply tidy_rstrip, Hs.
Qed.

(** ** Capitalization applied twice *)

Lemma capitalize_idem (armed : bool) (s : str) :
  Scan.capitalize armed (Scan.capitalize armed s) = Scan.capitalize armed s.
Proof.
  revert armed. induction s as [|c s IH]; intros a; simpl; [reflexivity|].
  destruct (a && is_lower c) eqn:Ea; simpl.
  - apply andb_prop in Ea as [_ El].
    destruct (upper_of_lower c El) as (-> & -> & ->).
    rewrite !andb_false_r. simpl. rewrite IH. reflexivity.
  - rewrite Ea, IH. reflexivity.
Qed.

Lemma cap_first_capitalize (s : str) :
  Scan.cap_first (Scan.capitalize false (Scan.cap_first s))
  = Scan.capitalize false (Scan.cap_first s).
Proof.
  destruct s as [|c s]; simpl; [reflexivity|].
  rewrite upper_char_idem. reflexivity.
Qed.

(** ** C4 *)

(** C4: formatting a formatted text changes nothing, for every text. *)
Theorem format_text_idempotent (s : str) :
  TextBuffer._format_text (TextBuffer._format_text s) = TextBuffer._format_text s.
Proof.
  rewrite (format_text_scan s).
  pose proof (normalized_tidy s) as Hn.
  set (n := Scan.squeeze false (strip s)) in *.
  rewrite format_text_scan.
  destruct Hn as [Hnil | Htidy].
  - rewrite Hnil. reflexivity.
  - assert (Hout : Scan.tidy_from true (Scan.capitalize false (Scan.cap_first n))).
    { apply tidy_capitalize, tidy_cap_first, Htidy. }
    rewrite (tidy_strip _ Hout), (tidy_squeeze _ _ (tidy_weaken _ Hout)).
    rewrite cap_first_capitalize. apply capitalize_idem.
Qed.

(** ** Recognition adapter *)

Section EngineFacts.
Context {R : Type} `{VoskEngine.KaldiRecognizer R}.
Variable loads : str -> outcome VoskEngine.json.

Lemma no_results_lookup :
  VoskEngine.no_results !! "partial" = Some None /\
  VoskEngine.no_results !! "final" = Some None.
Proof. split; reflexivity. Qed.

Lemma process_audio_idle (r : option R) (a : bool) (audio_data : bytes) :
  r = None \/ a = false ->
  VoskEngine.process_audio loads (VoskEngine.mk r a) audio_data
  = (VoskEngine.mk r a, [], VoskEngine.no_results).
Proof.
  unfold VoskEngine.process_audio. simpl.
  intros [-> | ->]; [destruct a | destruct r]; reflexivity.
Qed.

(** What the [try] block answers when it does not raise: one entry set. *)
Lemma process_audio_body_ok (audio_data : bytes) (r r' : R)
    (results : gmap string (option str)) :
  VoskEngine.process_audio_body loads audio_data VoskEngine.no_results r
  = (r', Ok results) ->
  exists text : str,
    results = <["final" := Some text]> VoskEngine.no_results \/
    results = <["partial" := Some text]> VoskEngine.no_results.
Proof.
  unfold VoskEngine.process_audio_body, VoskEngine.bind, VoskEngine.lift,
    VoskEngine.ret.
  destruct (VoskEngine.AcceptWaveform r audio_data) as [r1 [[|]|e]];
    [| |discriminate].
  - destruct (VoskEngine.Result r1) as [r2 [doc|e]]; [|discriminate].
    destruct (loads doc) as [d|e]; [|discriminate].
    destruct (VoskEngine.get_strip d "text") as [text|e]; [|discriminate].
    intros [= _ <-]. eauto.
  - destruct (VoskEngine.PartialResult r1) as [r2 [doc|e]]; [|discriminate].
    destruct (loads doc) as [d|e]; [|discriminate].
    destruct (VoskEngine.get_strip d "partial") as [text|e]; [|discriminate].
    intros [= _ <-]. eauto.
Qed.

Lemma process_audio_results (self : VoskEngine.t R) (audio_data : bytes) :
  let results := snd (VoskEngine.process_audio loads self audio_data) in
  results = VoskEngine.no_results \/
  exists text : str,
    results = <["final" := Some text]> VoskEngine.no_results \/
    results = <["partial" := Some text]> VoskEngine.no_results.
Proof.
  destruct self as [[r|] [|]]; simpl; auto.
  unfold VoskEngine.process_audio. simpl.
  destruct (VoskEngine.process_audio_body loads audio_data
              VoskEngine.no_results r) as [r' [results|e]] eqn:E; simpl; auto.
  right. eapply process_audio_body_ok, E.
Qed.

End EngineFacts.

(** C10: the [dict] that [process_audio] returns has both keys, and at least
    one of ['partial'] and ['final'] is [None]: a frame sets the entry of the
    one branch it takes.  With the recogniser missing or the engine inactive
    both are [None]. *)
Theorem process_audio_at_most_one_result
    {R : Type} `{VoskEngine.KaldiRecognizer R}
    (loads : str -> outcome VoskEngine.json)
    (self : VoskEngine.t R) (audio_data : bytes) :
  let results := snd (VoskEngine.process_audio loads self audio_data) in
  (is_Some (results !! "partial") /\ is_Some (results !! "final")) /\
  (results !! "partial" = Some None \/ results !! "final" = Some None) /\
  (forall a : bool,
      snd (VoskEngine.process_audio loads (VoskEngine.mk None a) audio_data)
      = VoskEngine.no_results) /\
  (forall r : option R,
      snd (VoskEngine.process_audio loads (VoskEngine.mk r false) audio_data)
      = VoskEngine.no_results) /\
  VoskEngine.no_results !! "partial" = Some None /\
  VoskEngine.no_results !! "final" = Some None.
Proof.
  intros results.
  assert (Hshape := process_audio_results loads self audio_data).
  fold results in Hshape.
  split; [split | split; [| split; [| split; [| split]]]].
  - destruct Hshape as [-> | [text [-> | ->]]]; eexists; reflexivity.
  - destruct Hshape as [-> | [text [-> | ->]]]; eexists; reflexivity.
  - destruct Hshape as [-> | [text [-> | ->]]];
      [left | left | right]; reflexivity.
  - intros a. rewrite process_audio_idle by auto. reflexivity.
  - intros r. rewrite process_audio_idle by auto. reflexivity.
  - reflexivity.
  - reflexivity.
Qed.

(** C5, as stated: a call with the decoder state missing is not reported.
    With no recogniser and the engine inactive [process_audio] prints nothing
    and answers the very [dict] that a running engine answers for a frame it
    failed to process. *)
Lemma missing_decoder_not_reported :
  VoskEngine.process_audio Double.loads
    (VoskEngine.mk (None : option Double.t) false) []
  = (VoskEngine.mk None false, [], VoskEngine.no_results)
  /\ ~ VoskEngine.reports_missing Double.loads
         (VoskEngine.mk (None : option Double.t) false) [].
Proof.
  split; [reflexivity|].
  intros Hrep.
  apply (Hrep (VoskEngine.mk
                 (Some (Double.mk [Raise (Exception (lit "bad frame"))]
                          (Ok []) (Ok [])))
                 true)
              (Double.mk [Raise (Exception (lit "bad frame"))] (Ok []) (Ok []))
              []); reflexivity.
Qed.

(** C5, amended: with the recogniser missing or the engine inactive
    [process_audio] returns normally, prints nothing and answers [None] for
    both keys, which is also its answer for a failed frame, so the caller is
    not told.  A frame whose processing raises is logged in one line and
    skipped: the answer has [None] for both keys, the engine stays active with
    its recogniser, and the frames behind it are processed as before. *)
Theorem frame_error_logged_and_skipped
    {R : Type} `{VoskEngine.KaldiRecognizer R}
    (loads : str -> outcome VoskEngine.json)
    (r r' : R) (e : exn) (audio_data : bytes) (rest : list bytes)
    (Hfail : VoskEngine.process_audio_body loads audio_data
               VoskEngine.no_results r = (r', Raise e)) :
  (forall (a : bool) (data : bytes),
      VoskEngine.process_audio loads (VoskEngine.mk None a) data
      = (VoskEngine.mk None a, [], VoskEngine.no_results)) /\
  (forall (r0 : option R) (data : bytes),
      VoskEngine.process_audio loads (VoskEngine.mk r0 false) data
      = (VoskEngine.mk r0 false, [], VoskEngine.no_results)) /\
  VoskEngine.process_audio loads (VoskEngine.mk (Some r) true) audio_data
  = (VoskEngine.mk (Some r') true,
     [lit "Vosk processing error: " ++ exn_str e],
     VoskEngine.no_results) /\
  VoskEngine.process_stream loads (VoskEngine.mk (Some r) true)
    (audio_data :: rest)
  = (let '(engine, out, results) :=
       VoskEngine.process_stream loads (VoskEngine.mk (Some r') true) rest in
     (engine, (lit "Vosk processing error: " ++ exn_str e) :: out,
      VoskEngine.no_results :: results)) /\
  length (snd (VoskEngine.process_stream loads (VoskEngine.mk (Some r) true)
                 (audio_data :: rest)))
  = S (length rest).
Proof.
  assert (Hone :
    VoskEngine.process_audio loads (VoskEngine.mk (Some r) true) audio_data
    = (VoskEngine.mk (Some r') true,
       [lit "Vosk processing error: " ++ exn_str e],
       VoskEngine.no_results)).
  { unfold VoskEngine.process_audio. simpl. rewrite Hfail. reflexivity. }
  assert (Hlen : forall (frames : list bytes) (self : VoskEngine.t R),
    length (snd (VoskEngine.process_stream loads self frames)) = length frames).
  { induction frames as [|f frames IH]; intros self; simpl; [reflexivity|].
    destruct (VoskEngine.process_audio loads self f) as [[self1 out1] res1].
    specialize (IH self1).
    destruct (VoskEngine.process_stream loads self1 frames) as [[self2 out2] more].
    simpl in *. rewrite IH. reflexivity. }
  split; [| split; [| split; [| split]]].
  - intros a data. apply process_audio_idle. auto.
  - intros r0 data. apply process_audio_idle. auto.
  - exact Hone.
  - simpl VoskEngine.process_stream at 1. rewrite Hone.
    destruct (VoskEngine.process_stream loads (VoskEngine.mk (Some r') true) rest)
      as [[engine out] results]. reflexivity.
  - apply Hlen.
Qed.

Lemma frame_error_logged_and_skipped_witness :
  let r := Double.mk [Raise (Exception (lit "bad frame")); Ok false]
             (Ok []) (Ok (Double.document (lit "partial") (lit "hello"))) in
  let r' := Double.mk [Ok false]
              (Ok []) (Ok (Double.document (lit "partial") (lit "hello"))) in
  VoskEngine.process_stream Double.loads (VoskEngine.mk (Some r) true) [[]; []]
  = (let '(engine, out, results) :=
       VoskEngine.process_stream Double.loads (VoskEngine.mk (Some r') true) [[]] in
     (engine, (lit "Vosk processing error: " ++ lit "bad frame") :: out,
      VoskEngine.no_results :: results)).
Proof.
  intros r r'.
  refine (proj1 (proj2 (proj2 (proj2
    (frame_error_logged_and_skipped Double.loads r r'
       (Exception (lit "bad frame")) [] [[]] _))))).
  reflexivity.
Defined.

(** ** Frame queues *)

Lemma put_ok {A} (q q' : Queue.t A) (x : A) (timeout w : Z) :
  Queue.put q x timeout = (Ok q', w) ->
  Queue.full q = false /\ w = 0%Z /\
  Queue.maxsize q' = Queue.maxsize q /\ Queue.items q' = Queue.items q ++ [x].
Proof.
  unfold Queue.put. destruct (Queue.full q); [discriminate|].
  intros [= <- <-]. auto.
Qed.

Lemma put_raise {A} (q : Queue.t A) (x : A) (timeout w : Z) (e : exn) :
  Queue.put q x timeout = (Raise e, w) ->
  Queue.full q = true /\ w = timeout /\ e = Full.
Proof.
  unfold Queue.put. destruct (Queue.full q); [|discriminate].
  intros [= <- <-]. auto.
Qed.

Lemma put_within {A} (n : nat) (q q' : Queue.t A) (x : A) (timeout w : Z) :
  0 < n -> Queue.within n q -> Queue.put q x timeout = (Ok q', w) ->
  Queue.within n q'.
Proof.
  intros Hn [Hmax Hsize] Hput.
  destruct (put_ok _ _ _ _ _ Hput) as (Hfull & _ & Hmax' & Hitems).
  unfold Queue.within, Queue.full, Queue.qsize in *.
  rewrite Hmax', Hitems, length_app. simpl. split; [exact Hmax|].
  rewrite Hmax in Hfull.
  apply andb_false_iff in Hfull as [Hf | Hf]; [apply Z.ltb_ge in Hf | apply Z.leb_gt in Hf]; lia.
Qed.

Lemma get_nowait_ok {A} (q q' : Queue.t A) (x : A) :
  Queue.get_nowait q = Ok (x, q') ->
  Queue.maxsize q' = Queue.maxsize q /\ Queue.items q = x :: Queue.items q'.
Proof.
  unfold Queue.get_nowait. destruct (Queue.items q) eqn:E; [discriminate|].
  intros [= <- <-]. auto.
Qed.

Lemma get_ok {A} (q q' : Queue.t A) (x : A) (timeout w : Z) :
  Queue.get q timeout = (Ok (x, q'), w) ->
  w = 0%Z /\ Queue.maxsize q' = Queue.maxsize q /\
  Queue.items q = x :: Queue.items q'.
Proof.
  unfold Queue.get. destruct (Queue.items q) eqn:E; [discriminate|].
  intros [= <- <- <-]. auto.
Qed.

Lemma get_raise {A} (q : Queue.t A) (timeout w : Z) (e : exn) :
  Queue.get q timeout = (Raise e, w) -> w = timeout.
Proof.
  unfold Queue.get. destruct (Queue.items q); [|discriminate].
  intros [= _ <-]. reflexivity.
Qed.

Lemma shrink_within {A} (n : nat) (q q' : Queue.t A) (x : A) :
  Queue.within n q -> Queue.maxsize q' = Queue.maxsize q ->
  Queue.items q = x :: Queue.items q' -> Queue.within n q'.
Proof.
  unfold Queue.within, Queue.qsize. intros [Hmax Hsize] -> Hitems.
  rewrite Hitems in Hsize. simpl in Hsize. split; [exact Hmax | lia].
Qed.

Lemma drain_items_within {A} (n fuel : nat) (q : Queue.t A) :
  Queue.within n q -> Queue.within n (Queue.drain_items fuel q).
Proof.
  revert q. induction fuel as [|fuel IH]; intros q Hq; simpl; [exact Hq|].
  destruct (Queue.empty q); [exact Hq|].
  destruct (Queue.get_nowait q) as [[x q']|e] eqn:E; [|exact Hq].
  apply IH. destruct (get_nowait_ok _ _ _ E) as [Hmax Hitems].
  eapply shrink_within; eassumption.
Qed.

Lemma drain_within {A} (n : nat) (q : Queue.t A) :
  Queue.within n q -> Queue.within n (Queue.drain q).
Proof. apply drain_items_within. Qed.

(** A queue filled to its capacity. *)
Lemma full_at_capacity {A} (n : nat) (q : Queue.t A) :
  0 < n -> Queue.maxsize q = Z.of_nat n -> Queue.qsize q = n ->
  Queue.full q = true.
Proof.
  intros Hn Hmax Hsize. unfold Queue.full. rewrite Hmax, Hsize.
  apply andb_true_iff. split; [apply Z.ltb_lt | apply Z.leb_le]; lia.
Qed.

(** The capture loop: the pass keeps its queue within capacity, and on a
    queue filled to capacity it drops the oldest frame for the new one. *)
Lemma recording_pass_within (n : nat) (self : AudioCapture.t)
    (read : outcome bytes) :
  0 < n -> Queue.within n (AudioCapture.audio_queue self) ->
  Queue.within n
    (AudioCapture.audio_queue
       (AudioCapture.self' (AudioCapture._recording_worker_pass self read))).
Proof.
  intros Hn Hq. unfold AudioCapture._recording_worker_pass.
  destruct read as [data|e]; [|exact Hq].
  destruct (Queue.put (AudioCapture.audio_queue self) data 100)
    as [[q|e] w] eqn:Hput.
  - simpl. eapply put_within; eassumption.
  - destruct (put_raise _ _ _ _ _ Hput) as (_ & _ & ->).
    destruct (Queue.get_nowait (AudioCapture.audio_queue self))
      as [[x q1]|e] eqn:Hget; [|exact Hq].
    destruct (get_nowait_ok _ _ _ Hget) as [Hmax Hitems].
    assert (Hq1 : Queue.within n q1) by (eapply shrink_within; eassumption).
    destruct (Queue.put q1 data 100) as [[q2|e] w2] eqn:Hput2; simpl.
    + eapply put_within; eassumption.
    + exact Hq1.
Qed.

Lemma recording_pass_drops_oldest (n : nat) (self : AudioCapture.t)
    (data : bytes) :
  0 < n ->
  Queue.maxsize (AudioCapture.audio_queue self) = Z.of_nat n ->
  Queue.qsize (AudioCapture.audio_queue self) = n ->
  exists (oldest : bytes) (rest : list bytes),
    Queue.items (AudioCapture.audio_queue self) = oldest :: rest /\
    AudioCapture._recording_worker_pass self (Ok data)
    = AudioCapture.mk_pass
        (AudioCapture.with_queue self (Queue.mk (Z.of_nat n) (rest ++ [data])))
        [] 100.
Proof.
  intros Hn Hmax Hsize.
  pose proof (full_at_capacity n _ Hn Hmax Hsize) as Hfull.
  destruct (AudioCapture.audio_queue self) as [m items] eqn:Hq.
  simpl in Hmax, Hsize. unfold Queue.qsize in Hsize. simpl in Hsize.
  destruct items as [|oldest rest]; [simpl in Hsize; lia|].
  exists oldest, rest. split; [reflexivity|].
  unfold AudioCapture._recording_worker_pass. rewrite Hq.
  unfold Queue.put at 1. rewrite Hfull.
  unfold Queue.get_nowait. simpl Queue.items. cbv iota.
  unfold Queue.put, Queue.full, Queue.qsize. simpl Queue.items. simpl Queue.maxsize.
  subst m. simpl in Hsize.
  replace (Z.of_nat n <=? Z.of_nat (length rest))%Z with false
    by (symmetry; apply Z.leb_gt; lia).
  rewrite andb_false_r. reflexivity.
Qed.

Section AppFacts.
Context {R : Type} `{VoskEngine.KaldiRecognizer R}.
Variable loads : str -> outcome VoskEngine.json.

(** Sending an update touches the GUI queue only. *)
Lemma send_text_update_frame (self : LarynxApp.t R) (kind : string) (text : str) :
  let self' := LarynxApp._send_text_update self kind text in
  LarynxApp.audio_queue self' = LarynxApp.audio_queue self /\
  LarynxApp.audio_capture self' = LarynxApp.audio_capture self /\
  LarynxApp.text_buffer self' = LarynxApp.text_buffer self /\
  LarynxApp.vosk_engine self' = LarynxApp.vosk_engine self /\
  LarynxApp.recording self' = LarynxApp.recording self.
Proof.
  unfold LarynxApp._send_text_update.
  destruct (Queue.put _ _ _) as [[q|e] w]; simpl; auto.
Qed.

Lemma finalize_frame (self : LarynxApp.t R) :
  let self' := LarynxApp._finalize_transcription loads self in
  LarynxApp.audio_queue self' = LarynxApp.audio_queue self /\
  LarynxApp.audio_capture self' = LarynxApp.audio_capture self /\
  LarynxApp.recording self' = LarynxApp.recording self.
Proof.
  unfold LarynxApp._finalize_transcription.
  destruct (VoskEngine.get_final_result loads (LarynxApp.vosk_engine self))
    as [[engine out] final].
  destruct final as [|c final]; simpl; [auto|].
  match goal with |- context [LarynxApp._send_text_update ?s ?k ?t] =>
    destruct (send_text_update_frame s k t) as (-> & -> & _ & _ & ->) end.
  simpl. auto.
Qed.

Lemma get_audio_chunk_within (n : nat) (capture : AudioCapture.t) (timeout : Z) :
  Queue.within n (AudioCapture.audio_queue capture) ->
  Queue.within n
    (AudioCapture.audio_queue
       (snd (fst (AudioCapture.get_audio_chunk capture timeout)))).
Proof.
  intros Hq. unfold AudioCapture.get_audio_chunk.
  destruct (Queue.get (AudioCapture.audio_queue capture) timeout)
    as [[[chunk q]|e] w] eqn:Hget; simpl; [|exact Hq].
  destruct (get_ok _ _ _ _ _ Hget) as (_ & Hmax & Hitems).
  eapply shrink_within; eassumption.
Qed.

Lemma capture_pass_within (n : nat) (self : LarynxApp.t R) :
  0 < n -> Pipeline.frame_queues_within n self ->
  Pipeline.frame_queues_within n (fst (LarynxApp._audio_capture_worker_pass self)).
Proof.
  intros Hn [Hq Hc]. unfold LarynxApp._audio_capture_worker_pass.
  destruct (LarynxApp.audio_capture self) as [capture|] eqn:Hcap;
    [| split; simpl; [exact Hq | rewrite Hcap; exact I]].
  pose proof (get_audio_chunk_within n capture 100 Hc) as Hc'.
  destruct (AudioCapture.get_audio_chunk capture 100) as [[chunk capture'] w0].
  simpl in Hc'.
  destruct chunk as [[|x0 chunk]|]; [split; simpl; assumption | | split; simpl; assumption].
  simpl LarynxApp.audio_queue.
  destruct (Queue.put (LarynxApp.audio_queue self) (x0 :: chunk) 100)
    as [[q|e] w] eqn:Hput.
  - split; simpl; [exact (put_within n _ _ _ _ _ Hn Hq Hput) | assumption].
  - destruct (put_raise _ _ _ _ _ Hput) as (_ & _ & ->).
    destruct (Queue.get_nowait (LarynxApp.audio_queue self))
      as [[x q1]|e] eqn:Hget; [|split; simpl; assumption].
    destruct (get_nowait_ok _ _ _ Hget) as [Hmax Hitems].
    assert (Hq1 : Queue.within n q1)
      by exact (shrink_within n _ _ _ Hq Hmax Hitems).
    destruct (Queue.put q1 (x0 :: chunk) 100) as [[q2|e] w2] eqn:Hput2;
      split; simpl; try assumption.
    exact (put_within n _ _ _ _ _ Hn Hq1 Hput2).
Qed.

(** Updates of the other attributes leave the frame queues alone. *)
Lemma within_set_text_buffer n (self : LarynxApp.t R) b :
  Pipeline.frame_queues_within n self ->
  Pipeline.frame_queues_within n (LarynxApp.set_text_buffer self b).
Proof. exact id. Qed.

Lemma within_set_vosk_engine n (self : LarynxApp.t R) e :
  Pipeline.frame_queues_within n self ->
  Pipeline.frame_queues_within n (LarynxApp.set_vosk_engine self e).
Proof. exact id. Qed.

Lemma within_set_recording n (self : LarynxApp.t R) b :
  Pipeline.frame_queues_within n self ->
  Pipeline.frame_queues_within n (LarynxApp.set_recording self b).
Proof. exact id. Qed.

Lemma within_print n (self : LarynxApp.t R) lines :
  Pipeline.frame_queues_within n self ->
  Pipeline.frame_queues_within n (LarynxApp.print self lines).
Proof. exact id. Qed.

Lemma within_call_gui n (self : LarynxApp.t R) c :
  Pipeline.frame_queues_within n self ->
  Pipeline.frame_queues_within n (LarynxApp.call_gui self c).
Proof. exact id. Qed.

Lemma within_send_text_update n (self : LarynxApp.t R) kind text :
  Pipeline.frame_queues_within n self ->
  Pipeline.frame_queues_within n (LarynxApp._send_text_update self kind text).
Proof.
  unfold Pipeline.frame_queues_within.
  destruct (send_text_update_frame self kind text) as (-> & -> & _).
  exact id.
Qed.

Lemma within_finalize n (self : LarynxApp.t R) :
  Pipeline.frame_queues_within n self ->
  Pipeline.frame_queues_within n (LarynxApp._finalize_transcription loads self).
Proof.
  unfold Pipeline.frame_queues_within.
  destruct (finalize_frame self) as (-> & -> & _).
  exact id.
Qed.

Create HintDb frames.
#[local] Hint Resolve within_set_text_buffer within_set_vosk_engine
  within_set_recording within_print within_call_gui within_send_text_update
  within_finalize : frames.

Lemma asr_pass_within (n : nat) (self : LarynxApp.t R) :
  Pipeline.frame_queues_within n self ->
  Pipeline.frame_queues_within n (LarynxApp._asr_worker_pass loads self).
Proof.
  intros [Hq Hc]. unfold LarynxApp._asr_worker_pass.
  destruct (Queue.get (LarynxApp.audio_queue self) 100)
    as [[[chunk q]|e] w] eqn:Hget; [|split; assumption].
  destruct (get_ok _ _ _ _ _ Hget) as (_ & Hmax & Hitems).
  assert (Hstart : Pipeline.frame_queues_within n (LarynxApp.set_audio_queue self q)).
  { split; simpl; [exact (shrink_within n _ _ _ Hq Hmax Hitems) | exact Hc]. }
  destruct (VoskEngine.process_audio loads _ chunk) as [[engine out] results].
  destruct (LarynxApp.truthy results "partial") as [partial|];
    destruct (LarynxApp.truthy results "final") as [final|];
    auto 10 with frames.
Qed.

Lemma capture_stop_within (n : nat) (self : LarynxApp.t R) :
  Pipeline.frame_queues_within n self ->
  Pipeline.frame_queues_within n
    match LarynxApp.audio_capture self with
    | Some capture =>
        let '(capture, out) := AudioCapture.stop_recording capture in
        LarynxApp.print (LarynxApp.set_audio_capture self (Some capture)) out
    | None => self
    end.
Proof.
  intros [Hq Hc].
  destruct (LarynxApp.audio_capture self) as [capture|] eqn:Hcap;
    [| split; [exact Hq | rewrite Hcap; exact I]].
  unfold AudioCapture.stop_recording.
  destruct (AudioCapture.is_recording_flag capture); split; simpl; assumption.
Qed.

Lemma stop_recording_within (n : nat) (asr_exits : bool) (self : LarynxApp.t R) :
  Pipeline.frame_queues_within n self ->
  Pipeline.frame_queues_within n (LarynxApp.stop_recording loads asr_exits self).
Proof.
  intros Hs. unfold LarynxApp.stop_recording.
  destruct (LarynxApp.recording self); simpl negb; cbv iota; [|exact Hs].
  apply within_call_gui, within_finalize.
  assert (Hstopped := capture_stop_within n
            (LarynxApp.set_recording
               (LarynxApp.print self [lit "🛑 Stopping recording..."]) false) Hs).
  destruct asr_exits; [|exact Hstopped].
  unfold LarynxApp._asr_worker_exit. auto with frames.
Qed.

Lemma capture_enter_within (n : nat) (self : LarynxApp.t R) :
  Pipeline.frame_queues_within n self ->
  Pipeline.frame_queues_within n (LarynxApp._audio_capture_worker_enter self).
Proof.
  intros [Hq Hc]. unfold LarynxApp._audio_capture_worker_enter.
  simpl LarynxApp.audio_capture.
  destruct (LarynxApp.audio_capture self) as [capture|] eqn:Hcap;
    [| split; simpl; [exact Hq | rewrite Hcap; exact I]].
  unfold AudioCapture.start_recording.
  destruct (AudioCapture.is_recording_flag capture); split; simpl; assumption.
Qed.

Lemma step_within (n : nat) (self : LarynxApp.t R) (e : LarynxApp.event) :
  0 < n -> Pipeline.frame_queues_within n self ->
  Pipeline.frame_queues_within n (LarynxApp.step loads self e).
Proof.
  intros Hn Hs. destruct e as [read| | | | |asr_exits| | | |]; simpl.
  - destruct Hs as [Hq Hc].
    destruct (LarynxApp.audio_capture self) as [capture|] eqn:Hcap;
      [| split; [exact Hq | rewrite Hcap; exact I]].
    split; simpl; [exact Hq|]. apply recording_pass_within; assumption.
  - apply capture_pass_within; assumption.
  - apply asr_pass_within; assumption.
  - destruct Hs as [Hq Hc]. split; simpl; [apply drain_within|]; assumption.
  - unfold LarynxApp.clear_text. auto with frames.
  - apply stop_recording_within; assumption.
  - apply capture_enter_within; assumption.
  - exact Hs.
  - exact Hs.
  - auto with frames.
Qed.

Lemma run_within (n : nat) (events : list LarynxApp.event) (self : LarynxApp.t R) :
  0 < n -> Pipeline.frame_queues_within n self ->
  Pipeline.frame_queues_within n (LarynxApp.run loads self events).
Proof.
  intros Hn. revert self.
  induction events as [|e events IH]; intros self Hs; simpl; [exact Hs|].
  apply IH, step_within; assumption.
Qed.

Lemma init_within (r0 : R) : Pipeline.frame_queues_within 100 (LarynxApp.init r0).
Proof.
  unfold Pipeline.frame_queues_within, Queue.within, Queue.qsize. simpl.
  repeat split; lia.
Qed.

End AppFacts.

Section FrameQueueFacts.
Context {R : Type} `{VoskEngine.KaldiRecognizer R}.

Lemma capture_pass_drops_oldest (n : nat) (self : LarynxApp.t R)
    (source : AudioCapture.t) (chunk : bytes) (more : list bytes) :
  0 < n ->
  LarynxApp.audio_capture self = Some source ->
  Queue.items (AudioCapture.audio_queue source) = chunk :: more ->
  chunk <> [] ->
  Queue.maxsize (LarynxApp.audio_queue self) = Z.of_nat n ->
  Queue.qsize (LarynxApp.audio_queue self) = n ->
  exists (oldest : bytes) (rest : list bytes),
    Queue.items (LarynxApp.audio_queue self) = oldest :: rest /\
    Queue.items
      (LarynxApp.audio_queue (fst (LarynxApp._audio_capture_worker_pass self)))
    = rest ++ [chunk] /\
    snd (LarynxApp._audio_capture_worker_pass self) = 100%Z.
Proof.
  intros Hn Hsrc Hchunk Hne Hmax Hsize.
  pose proof (full_at_capacity n _ Hn Hmax Hsize) as Hfull.
  unfold LarynxApp._audio_capture_worker_pass. rewrite Hsrc.
  unfold AudioCapture.get_audio_chunk, Queue.get. rewrite Hchunk.
  destruct chunk as [|x0 chunk]; [congruence|].
  cbv beta iota. simpl LarynxApp.audio_queue.
  destruct (LarynxApp.audio_queue self) as [m items] eqn:Hq.
  simpl in Hmax. unfold Queue.qsize in Hsize. simpl in Hsize.
  destruct items as [|oldest rest]; [simpl in Hsize; lia|].
  exists oldest, rest. split; [reflexivity|].
  assert (Hroom : Queue.full (Queue.mk m rest) = false).
  { unfold Queue.full, Queue.qsize. simpl. subst m. simpl in Hsize.
    apply andb_false_iff. right. apply Z.leb_gt. lia. }
  unfold Queue.put, Queue.get_nowait. rewrite !Hfull.
  simpl Queue.items. simpl Queue.maxsize. cbv iota. rewrite !Hroom.
  simpl. split; reflexivity.
Qed.

Lemma recording_pass_waited (self : AudioCapture.t) (read : outcome bytes) :
  (0 <= AudioCapture.waited (AudioCapture._recording_worker_pass self read) <= 200)%Z.
Proof.
  unfold AudioCapture._recording_worker_pass, Queue.put, Queue.get_nowait.
  destruct read as [data|e]; simpl; [|lia].
  destruct (Queue.full (AudioCapture.audio_queue self)); simpl; [|lia].
  destruct (Queue.items (AudioCapture.audio_queue self)); simpl; [lia|].
  destruct (Queue.full _); simpl; lia.
Qed.

Lemma capture_pass_waited (self : LarynxApp.t R) :
  (0 <= snd (LarynxApp._audio_capture_worker_pass self) <= 300)%Z.
Proof.
  unfold LarynxApp._audio_capture_worker_pass, AudioCapture.get_audio_chunk,
    Queue.get, Queue.put, Queue.get_nowait.
  destruct (LarynxApp.audio_capture self) as [capture|]; simpl; [|lia].
  destruct (Queue.items (AudioCapture.audio_queue capture)) as [|chunk more];
    simpl; [lia|].
  destruct chunk as [|x0 chunk]; simpl; [lia|].
  destruct (Queue.full (LarynxApp.audio_queue self)); simpl; [|lia].
  destruct (Queue.items (LarynxApp.audio_queue self)); simpl; [lia|].
  destruct (Queue.full _); simpl; lia.
Qed.

End FrameQueueFacts.

(** C6: the two frame queues, the one of the capture object and the one of
    the application, are created with capacity 100 and never hold more than
    100 frames, whatever the capture loop, the two workers, the clearing of
    queues and text and the stopping of a recording do in whatever order.  A
    push onto a queue that holds 100 frames removes the oldest frame and then
    appends the new one, in both loops.  A pass of either loop waits a bounded
    time: every blocking call in it has a timeout of 100 ms. *)
Theorem frame_queue_bounded_drop_oldest
    {R : Type} `{VoskEngine.KaldiRecognizer R}
    (loads : str -> outcome VoskEngine.json)
    (capture : AudioCapture.t) (data : bytes)
    (self : LarynxApp.t R) (source : AudioCapture.t)
    (chunk : bytes) (more : list bytes)
    (Hcap : Queue.maxsize (AudioCapture.audio_queue capture) = 100%Z)
    (Hfull : Queue.qsize (AudioCapture.audio_queue capture) = 100)
    (Hsrc : LarynxApp.audio_capture self = Some source)
    (Hchunk : Queue.items (AudioCapture.audio_queue source) = chunk :: more)
    (Hne : chunk <> [])
    (Hcap' : Queue.maxsize (LarynxApp.audio_queue self) = 100%Z)
    (Hfull' : Queue.qsize (LarynxApp.audio_queue self) = 100) :
  (forall (r0 : R) (events : list LarynxApp.event),
      let app := LarynxApp.run loads (LarynxApp.init r0) events in
      Queue.maxsize (LarynxApp.audio_queue app) = 100%Z /\
      Queue.qsize (LarynxApp.audio_queue app) <= 100 /\
      forall c : AudioCapture.t,
        LarynxApp.audio_capture app = Some c ->
        Queue.maxsize (AudioCapture.audio_queue c) = 100%Z /\
        Queue.qsize (AudioCapture.audio_queue c) <= 100) /\
  (exists (oldest : bytes) (rest : list bytes),
      Queue.items (AudioCapture.audio_queue capture) = oldest :: rest /\
      Queue.items
        (AudioCapture.audio_queue
           (AudioCapture.self'
              (AudioCapture._recording_worker_pass capture (Ok data))))
      = rest ++ [data]) /\
  (exists (oldest : bytes) (rest : list bytes),
      Queue.items (LarynxApp.audio_queue self) = oldest :: rest /\
      Queue.items
        (LarynxApp.audio_queue
           (fst (LarynxApp._audio_capture_worker_pass self)))
      = rest ++ [chunk]) /\
  (forall (c : AudioCapture.t) (read : outcome bytes),
      (0 <= AudioCapture.waited (AudioCapture._recording_worker_pass c read)
       <= 200)%Z) /\
  (forall app : LarynxApp.t R,
      (0 <= snd (LarynxApp._audio_capture_worker_pass app) <= 300)%Z).
Proof.
  split; [| split; [| split; [| split]]].
  - intros r0 events app.
    destruct (run_within loads 100 events (LarynxApp.init r0))
      as [[Hmax Hsize] Hc]; [lia | apply init_within |].
    fold app in Hmax, Hsize, Hc.
    split; [exact Hmax | split; [exact Hsize |]].
    intros c Hc'. rewrite Hc' in Hc. exact Hc.
  - destruct (recording_pass_drops_oldest 100 capture data)
      as (oldest & rest & Hitems & Hpass); [lia | exact Hcap | exact Hfull |].
    exists oldest, rest. split; [exact Hitems|].
    rewrite Hpass. reflexivity.
  - destruct (capture_pass_drops_oldest 100 self source chunk more)
      as (oldest & rest & Hitems & Hpass & _); try assumption; [lia|].
    exists oldest, rest. split; assumption.
  - apply recording_pass_waited.
  - apply capture_pass_waited.
Qed.

Lemma frame_queue_bounded_drop_oldest_witness :
  Queue.qsize (AudioCapture.audio_queue Double.full_capture) = 100 /\
  Queue.qsize (LarynxApp.audio_queue Double.full_app) = 100 /\
  exists (oldest : bytes) (rest : list bytes),
    Queue.items (AudioCapture.audio_queue Double.full_capture) = oldest :: rest /\
    Queue.items
      (AudioCapture.audio_queue
         (AudioCapture.self'
            (AudioCapture._recording_worker_pass Double.full_capture
               (Ok [Byte.x07; Byte.x00]))))
    = rest ++ [[Byte.x07; Byte.x00]].
Proof.
  split; [reflexivity | split; [reflexivity |]].
  refine (proj1 (proj2
    (frame_queue_bounded_drop_oldest Double.loads
       Double.full_capture [Byte.x07; Byte.x00]
       Double.full_app Double.one_chunk_capture [Byte.x01; Byte.x00] []
       _ _ _ _ _ _ _))).
  - reflexivity.
  - reflexivity.
  - reflexivity.
  - reflexivity.
  - discriminate.
  - reflexivity.
  - reflexivity.
Defined.

(** ** Where a committed text shows in the display text *)

Lemma strip_idem (s : str) : strip (strip s) = strip s.
Proof.
  unfold strip.
  destruct (rstrip (lstrip s)) as [|c r] eqn:E; [reflexivity|].
  assert (Hl : lstrip (c :: r) = c :: r).
  { destruct (rstrip_cons_head _ _ _ E) as [s' Hs'].
    unfold lstrip in *. simpl.
    rewrite (drop_while_head _ _ _ _ Hs'). reflexivity. }
  rewrite Hl, <- E. apply rstrip_idem.
Qed.

Lemma strip_head (s : str) (c : ascii) (r : str) :
  strip s = c :: r -> isspace c = false.
Proof.
  unfold strip. intros E.
  destruct (rstrip_cons_head _ _ _ E) as [s' Hs'].
  eapply drop_while_head. exact Hs'.
Qed.


Lemma rstrip_app_nonempty (x y : str) :
  rstrip y <> [] -> rstrip (x ++ y) = x ++ rstrip y.
Proof.
  intros Hy. induction x as [|c x IH]; simpl; [reflexivity|].
  rewrite IH. destruct (x ++ rstrip y) eqn:E; [|reflexivity].
  apply app_eq_nil in E as [_ E]. contradiction.
Qed.







Lemma lower_cap_first (s : str) : lower (Scan.cap_first s) = lower s.
Proof.
  destruct s as [|c s]; [reflexivity|]. unfold lower. simpl.
  rewrite lower_upper_char. reflexivity.
Qed.

Lemma lower_capitalize (armed : bool) (s : str) :
  lower (Scan.capitalize armed s) = lower s.
Proof.
  revert armed. unfold lower.
  induction s as [|c s IH]; intros a; simpl; [reflexivity|].
  destruct (a && is_lower c); simpl; rewrite IH, ?lower_upper_char; reflexivity.
Qed.


Lemma get_strip_stripped (d : VoskEngine.json) (key : string) (text : str) :
  VoskEngine.get_strip d key = Ok text -> strip text = text.
Proof.
  unfold VoskEngine.get_strip.
  destruct d as [d|]; [|discriminate].
  destruct (d !! key) as [[s|]|]; [| discriminate |];
    intros [= <-]; apply strip_idem.
Qed.

(** ** The end of a recording *)

Section StopFacts.
Context {R : Type} `{VoskEngine.KaldiRecognizer R}.
Variable loads : str -> outcome VoskEngine.json.




Lemma stopped_frame (self : LarynxApp.t R) :
  LarynxApp.text_buffer (Pipeline.stopped self) = LarynxApp.text_buffer self /\
  LarynxApp.vosk_engine (Pipeline.stopped self) = LarynxApp.vosk_engine self /\
  LarynxApp.recording (Pipeline.stopped self) = false.
Proof.
  unfold Pipeline.stopped. simpl.
  destruct (LarynxApp.audio_capture self) as [capture|]; simpl; [|auto].
  destruct (AudioCapture.stop_recording capture) as [capture' out]. simpl. auto.
Qed.

Lemma stop_recording_unfold (asr_exits : bool) (self : LarynxApp.t R) :
  LarynxApp.recording self = true ->
  LarynxApp.stop_recording loads asr_exits self
  = LarynxApp.call_gui
      (LarynxApp._finalize_transcription loads
         (if asr_exits then LarynxApp._asr_worker_exit loads (Pipeline.stopped self)
          else Pipeline.stopped self))
      LarynxApp.GuiStopRecording.
Proof.
  intros Hrec. unfold LarynxApp.stop_recording. rewrite Hrec. reflexivity.
Qed.





End StopFacts.

(** Capitals set twice are capitals set once. *)
Lemma recased_trans (s t u : str) : recased s t -> recased t u -> recased s u.
Proof.
  unfold recased. intros Hst. revert u.
  induction Hst as [|a b s t Hab _ IH]; intros u Htu;
    inversion Htu as [|b' c t' u' Hbc Htu']; subst; constructor; [|apply IH, Htu'].
  destruct Hab as [-> | [Hl ->]]; [exact Hbc|].
  destruct Hbc as [-> | [Hl' _]]; [right; auto|].
  destruct (upper_of_lower a Hl) as (Hn & _). congruence.
Qed.

Lemma recased_refl (s : str) : recased s s.
Proof. induction s; constructor; auto. Qed.

Lemma recased_cap_first (s : str) : recased s (Scan.cap_first s).
Proof.
  destruct s as [|c s]; [constructor|]. simpl. constructor; [|apply recased_refl].
  destruct (is_lower c) eqn:El; [right; auto | left].
  unfold upper_char. rewrite El. reflexivity.
Qed.

Lemma recased_capitalize (armed : bool) (s : str) :
  recased s (Scan.capitalize armed s).
Proof.
  revert armed. induction s as [|c s IH]; intros a; simpl; [constructor|].
  destruct (a && is_lower c) eqn:E; constructor; try apply IH; [|left; reflexivity].
  apply andb_prop in E as [_ El]. right. auto.
Qed.





(** * Further properties *)

(** ** Normalization of recognised text *)

Lemma rstrip_nil_all_space (s : str) :
  rstrip s = [] <-> Forall (fun c => isspace c = true) s.
Proof.
  induction s as [|c s IH]; simpl; [split; [constructor | reflexivity]|].
  destruct (rstrip s) as [|d r] eqn:E.
  - destruct (isspace c) eqn:Ec.
    + split; [intros _; constructor; [exact Ec | apply IH; reflexivity] | reflexivity].
    + split; [discriminate | intros Hall; inversion Hall; congruence].
  - split; [discriminate|].
    intros Hall. inversion Hall as [|? ? _ Hs]; subst.
    apply IH in Hs. discriminate Hs.
Qed.

Lemma drop_while_all (p : ascii -> bool) (s : str) :
  Forall (fun c => p c = true) s -> drop_while p s = [].
Proof. induction 1 as [|c s Hc _ IH]; simpl; [|rewrite Hc]; auto. Qed.

Lemma split_all_space (s : str) :
  Forall (fun c => isspace c = true) s -> split s = [].
Proof.
  induction 1 as [|c s Hc _ IH]; [reflexivity|].
  rewrite split_equation_2, Hc, split_clause_2_equation_1. exact IH.
Qed.

Lemma rstrip_word_app (w y : str) :
  Forall (fun c => negb (isspace c) = true) w -> rstrip (w ++ y) = w ++ rstrip y.
Proof.
  induction 1 as [|c w Hc _ IH]; simpl; [reflexivity|].
  apply negb_true_iff in Hc. rewrite IH, Hc.
  destruct (w ++ rstrip y); reflexivity.
Qed.

Lemma squeeze_word_app (in_run : bool) (c : ascii) (w y : str) :
  isspace c = false ->
  Forall (fun c => negb (isspace c) = true) w ->
  Scan.squeeze in_run ((c :: w) ++ y) = (c :: w) ++ Scan.squeeze false y.
Proof.
  intros Hc Hw. simpl. rewrite Hc. f_equal.
  induction Hw as [|d w Hd _ IH]; simpl; [reflexivity|].
  apply negb_true_iff in Hd. rewrite Hd, IH. reflexivity.
Qed.

Lemma strip_leading_space (c : ascii) (s : str) :
  isspace c = true -> strip (c :: s) = strip s.
Proof. intros Hc. unfold strip, lstrip. simpl. rewrite Hc. reflexivity. Qed.

Lemma strip_nil_all_space (s : str) :
  strip s = [] -> Forall (fun c => isspace c = true) s.
Proof.
  unfold strip, lstrip. intros E. apply rstrip_nil_all_space in E.
  rewrite <- (take_drop_while isspace s). apply Forall_app. split; [|exact E].
  apply take_while_all.
Qed.

(** Behind whitespace, what is left of a text after [rstrip] squeezes to a
    space and the normal form of the text, or to nothing. *)
Lemma squeeze_after_gap (z : str) :
  Scan.squeeze true (rstrip z) = Scan.squeeze false (strip z).
Proof.
  destruct (rstrip (lstrip z)) as [|d r] eqn:E.
  - assert (Hall : Forall (fun c => isspace c = true) z)
      by (apply strip_nil_all_space; exact E).
    unfold strip. rewrite E.
    apply rstrip_nil_all_space in Hall. rewrite Hall. reflexivity.
  - unfold strip. rewrite <- (take_drop_while isspace z) at 1.
    fold (lstrip z). rewrite rstrip_app_nonempty by (rewrite E; discriminate).
    rewrite squeeze_true_spaces by apply take_while_all.
    rewrite E. apply squeeze_head_free.
    eapply strip_head. exact E.
Qed.

Lemma squeeze_rstrip_nonempty (z : str) :
  rstrip z <> [] -> Scan.squeeze true (rstrip z) <> [].
Proof.
  intros Hz. rewrite squeeze_after_gap.
  destruct (strip z) as [|x r] eqn:E.
  - apply strip_nil_all_space, rstrip_nil_all_space in E. contradiction.
  - simpl. rewrite (strip_head _ _ _ E). discriminate.
Qed.

Lemma clean_word_step (c : ascii) (s : str) :
  isspace c = false ->
  let w := take_while (fun x => negb (isspace x)) s in
  let rest := drop_while (fun x => negb (isspace x)) s in
  Scan.squeeze false (strip (c :: s))
  = (c :: w) ++
    match Scan.squeeze false (strip rest) with
    | [] => []
    | n => " "%char :: n
    end.
Proof.
  intros Hc w rest.
  assert (Hs : c :: s = (c :: w) ++ rest)
    by (simpl; subst w rest; rewrite take_drop_while; reflexivity).
  assert (Hw : Forall (fun c => negb (isspace c) = true) (c :: w)).
  { constructor; [rewrite Hc; reflexivity | apply take_while_all]. }
  unfold strip at 1, lstrip. simpl drop_while. rewrite Hc, Hs.
  rewrite (rstrip_word_app _ _ Hw).
  rewrite (squeeze_word_app false c w _ Hc (Forall_inv_tail Hw)).
  f_equal.
  pose proof (drop_while_not_space_head s) as Hhead. fold rest in Hhead.
  destruct rest as [|sp rest']; [reflexivity|].
  rewrite (strip_leading_space sp rest' Hhead).
  rewrite <- squeeze_after_gap.
  simpl rstrip. destruct (rstrip rest') as [|d r] eqn:E.
  - rewrite Hhead. reflexivity.
  - pose proof (squeeze_rstrip_nonempty rest') as Hne. rewrite E in Hne.
    specialize (Hne ltac:(discriminate)).
    remember (d :: r) as z eqn:Hz. clear Hz.
    simpl. rewrite Hhead.
    destruct (Scan.squeeze true z) as [|x n]; [contradiction | reflexivity].
Qed.

Lemma clean_nil_split_nil (s : str) :
  Scan.squeeze false (strip s) = [] -> split s = [].
Proof.
  intros E. apply split_all_space, strip_nil_all_space.
  destruct (strip s) as [|c r] eqn:Es; [reflexivity|].
  simpl in E. rewrite (strip_head _ _ _ Es) in E. discriminate E.
Qed.

Lemma clean_is_join_split (s : str) :
  Scan.squeeze false (strip s) = join (lit " ") (split s).
Proof.
  remember (length s) as n eqn:Hn.
  revert s Hn. induction n as [n IH] using lt_wf_ind. intros s Hn.
  destruct s as [|c s]; [reflexivity|].
  rewrite split_equation_2.
  destruct (isspace c) eqn:Ec.
  - rewrite split_clause_2_equation_1, (strip_leading_space c s Ec).
    apply (IH (length s)); [subst n; simpl; lia | reflexivity].
  - rewrite split_clause_2_equation_2. cbv zeta.
    rewrite drop_length_take_while, (clean_word_step c s Ec). cbv zeta.
    set (rest := drop_while (fun x => negb (isspace x)) s).
    assert (Hrest : Scan.squeeze false (strip rest) = join (lit " ") (split rest)).
    { apply (IH (length rest)); [|reflexivity].
      subst n rest. simpl.
      rewrite <- (take_drop_while (fun x => negb (isspace x)) s) at 2.
      rewrite length_app. lia. }
    destruct (Scan.squeeze false (strip rest)) as [|d r] eqn:E.
    + rewrite (clean_nil_split_nil rest E). simpl. rewrite app_nil_r. reflexivity.
    + destruct (split rest) as [|w1 ws]; [discriminate Hrest|].
      rewrite Hrest. reflexivity.
Qed.

Lemma clean_text_idem (text : str) :
  TextBuffer._clean_text (TextBuffer._clean_text text)
  = TextBuffer._clean_text text.
Proof.
  rewrite !clean_text_scan.
  destruct (normalized_tidy text) as [-> | Htidy]; [reflexivity|].
  rewrite (tidy_strip _ Htidy). apply tidy_squeeze, tidy_weaken, Htidy.
Qed.

(** X1: [_clean_text] joins the words of the text with single spaces, the
    same as [' '.join(text.split())]; cleaning a cleaned text changes
    nothing. *)
Theorem clean_text_joins_words (text : str) :
  TextBuffer._clean_text text = join (lit " ") (split text) /\
  TextBuffer._clean_text (TextBuffer._clean_text text)
  = TextBuffer._clean_text text.
Proof.
  split.
  - rewrite clean_text_scan. apply clean_is_join_split.
  - apply clean_text_idem.
Qed.

(** ** What formatting keeps and what it guarantees *)

Lemma is_lower_upper_char (c : ascii) : is_lower (upper_char c) = false.
Proof. by_cases_on_char c. Qed.

Lemma sentence_end_upper_char (c : ascii) :
  is_sentence_end (upper_char c) = true -> upper_char c = c.
Proof. by_cases_on_char c. Qed.

Lemma length_capitalize (armed : bool) (s : str) :
  length (Scan.capitalize armed s) = length s.
Proof.
  revert armed. induction s as [|c s IH]; intros a; simpl; [reflexivity|].
  destruct (a && is_lower c); simpl; rewrite IH; reflexivity.
Qed.

Lemma length_cap_first (s : str) : length (Scan.cap_first s) = length s.
Proof. destruct s; reflexivity. Qed.

Lemma token_count_capitalize (in_token armed : bool) (s : str) :
  Scan.token_count in_token (Scan.capitalize armed s)
  = Scan.token_count in_token s.
Proof.
  revert in_token armed.
  induction s as [|c s IH]; intros p a; simpl; [reflexivity|].
  destruct (a && is_lower c); simpl;
    rewrite ?isspace_upper_char, !IH; reflexivity.
Qed.

Lemma token_count_cap_first (in_token : bool) (s : str) :
  Scan.token_count in_token (Scan.cap_first s) = Scan.token_count in_token s.
Proof.
  destruct s as [|c s]; simpl; [reflexivity|].
  rewrite isspace_upper_char. reflexivity.
Qed.

Lemma token_count_squeeze (in_token in_run : bool) (s : str) :
  (in_run = true -> in_token = false) ->
  Scan.token_count in_token (Scan.squeeze in_run s)
  = Scan.token_count in_token s.
Proof.
  revert in_token in_run.
  induction s as [|c s IH]; intros p q Hpq; simpl; [reflexivity|].
  destruct (isspace c) eqn:Ec.
  - destruct q; simpl.
    + rewrite (Hpq eq_refl). apply IH. reflexivity.
    + change (isspace " "%char) with true. cbv iota. apply IH. reflexivity.
  - simpl. rewrite Ec. rewrite IH by discriminate. reflexivity.
Qed.

Lemma token_count_lstrip (s : str) :
  Scan.token_count false (lstrip s) = Scan.token_count false s.
Proof.
  unfold lstrip. induction s as [|c s IH]; simpl; [reflexivity|].
  destruct (isspace c) eqn:Ec; [exact IH|]. simpl. rewrite Ec. reflexivity.
Qed.

Lemma token_count_rstrip (in_token : bool) (s : str) :
  Scan.token_count in_token (rstrip s) = Scan.token_count in_token s.
Proof.
  revert in_token. induction s as [|c s IH]; intros p; simpl; [reflexivity|].
  destruct (isspace c) eqn:Ec.
  - rewrite <- (IH false).
    destruct (rstrip s) as [|d r]; simpl; [reflexivity|]. rewrite Ec. reflexivity.
  - rewrite <- (IH true).
    destruct (rstrip s) as [|d r]; simpl; rewrite Ec; reflexivity.
Qed.

Lemma token_count_normalize (s : str) :
  Scan.token_count false (Scan.squeeze false (strip s))
  = Scan.token_count false s.
Proof.
  rewrite token_count_squeeze by discriminate.
  unfold strip. rewrite token_count_rstrip. apply token_count_lstrip.
Qed.

(** X2: formatting only sets capitals.  The display form of a text of
    ASCII characters is its normal form with some of its letters a to z set
    as capitals: it has the same length and, up to the case of letters, the
    same characters.  (Outside ASCII [str.upper] can turn the first character
    into more than one, which is beyond the characters modelled here.)  The
    display form has as many words as the text itself. *)
Theorem format_text_only_recases (text : str) :
  (isascii text = true ->
   recased (TextBuffer._clean_text text) (TextBuffer._format_text text) /\
   lower (TextBuffer._format_text text) = lower (TextBuffer._clean_text text) /\
   length (TextBuffer._format_text text)
   = length (TextBuffer._clean_text text)) /\
  length (split (TextBuffer._format_text text)) = length (split text).
Proof.
  rewrite format_text_scan, clean_text_scan.
  split; [intros _; split; [| split] |].
  - eapply recased_trans; [apply recased_cap_first | apply recased_capitalize].
  - rewrite lower_capitalize. apply lower_cap_first.
  - rewrite length_capitalize. apply length_cap_first.
  - rewrite !split_length_token_count, token_count_capitalize,
      token_count_cap_first. apply token_count_normalize.
Qed.

Lemma format_text_only_recases_witness :
  isascii (lit "  well.  that is   it ") = true /\
  length (TextBuffer._format_text (lit "  well.  that is   it "))
  = length (TextBuffer._clean_text (lit "  well.  that is   it ")) /\
  TextBuffer._format_text (lit "  well.  that is   it ")
  = lit "Well. That is it".
Proof.
  split; [reflexivity|].
  split; [| vm_compute; reflexivity].
  refine (proj2 (proj2 (proj1
    (format_text_only_recases (lit "  well.  that is   it ")) _))).
  reflexivity.
Defined.

(** Nothing small behind whitespace: the start of a text that needs no
    capital. *)
Lemma capitalize_armed_start (s : str) :
  match drop_while isspace (Scan.capitalize true s) with
  | l :: _ => is_lower l = false
  | [] => True
  end.
Proof.
  induction s as [|c s IH]; simpl; [exact I|].
  destruct (is_lower c) eqn:El; simpl.
  - rewrite isspace_upper_char.
    destruct (isspace c) eqn:Ec;
      [rewrite (space_not_lower c Ec) in El; discriminate El|].
    apply is_lower_upper_char.
  - destruct (isspace c) eqn:Ec; [|exact El].
    rewrite orb_true_r. exact IH.
Qed.

Lemma pat_sentence_start_none (e : ascii) (rest : str) :
  (is_sentence_end e = true ->
   match drop_while isspace rest with
   | l :: _ => is_lower l = false
   | [] => True
   end) ->
  pat_sentence_start (e :: rest) = None.
Proof.
  intros Hstart. simpl.
  destruct (is_sentence_end e); [|reflexivity].
  specialize (Hstart eq_refl). rewrite drop_length_take_while.
  destruct (drop_while isspace rest) as [|l r]; [reflexivity|].
  rewrite Hstart. reflexivity.
Qed.

Lemma capitalize_leaves_no_match (armed : bool) (s p q : str) :
  Scan.capitalize armed s = p ++ q -> pat_sentence_start q = None.
Proof.
  revert armed p. induction s as [|c s IH]; intros a p; simpl.
  - intros E. symmetry in E. apply app_eq_nil in E as [_ ->]. reflexivity.
  - destruct p as [|p0 p].
    + simpl. intros <-.
      destruct (a && is_lower c) eqn:Ea.
      * apply pat_sentence_start_none. intros He.
        apply andb_prop in Ea as [_ El].
        destruct (upper_of_lower c El) as (_ & Hn & _). congruence.
      * apply pat_sentence_start_none. intros He. rewrite He. simpl.
        apply capitalize_armed_start.
    + destruct (a && is_lower c); simpl; intros [= _ E]; eapply IH; exact E.
Qed.

(** X3: the display form starts with no small letter, and nowhere in it does
    a small letter follow one of [.!?] and the whitespace behind it: the
    pattern of [_format_text] matches at no place of its result. *)
Theorem format_text_capitalized (text : str) :
  match TextBuffer._format_text text with
  | c :: _ => is_lower c = false
  | [] => True
  end /\
  (forall p q : str,
      TextBuffer._format_text text = p ++ q -> pat_sentence_start q = None).
Proof.
  rewrite format_text_scan. split.
  - destruct (Scan.squeeze false (strip text)) as [|c r]; simpl; [exact I|].
    apply is_lower_upper_char.
  - intros p q. apply capitalize_leaves_no_match.
Qed.

(** ** How the mutators of the buffer compose *)

Lemma token_count_app_gap (in_token : bool) (a b : str) (sp : ascii) :
  isspace sp = true ->
  Scan.token_count in_token (a ++ sp :: b)
  = Scan.token_count in_token a + Scan.token_count false b.
Proof.
  intros Hsp. revert in_token.
  induction a as [|c a IH]; intros p; simpl; [rewrite Hsp; reflexivity|].
  destruct (isspace c); rewrite IH; lia.
Qed.

(** Every commit ends in a space, so the final text is empty or ends in
    one. *)
Lemma run_final_text_ends_in_space (ops : list TextBuffer.op) (self : TextBuffer.t) :
  (TextBuffer.final_text self = [] \/
   exists f, TextBuffer.final_text self = f ++ lit " ") ->
  TextBuffer.final_text (TextBuffer.run self ops) = [] \/
  exists f, TextBuffer.final_text (TextBuffer.run self ops) = f ++ lit " ".
Proof.
  revert self. induction ops as [|o ops IH]; intros self Hs; [exact Hs|].
  apply IH. destruct o as [t|t|]; simpl.
  - destruct t; exact Hs.
  - destruct t as [|c t]; [exact Hs|]. right.
    exists (TextBuffer.final_text self ++ TextBuffer._clean_text (c :: t)).
    simpl. rewrite <- app_assoc. reflexivity.
  - left. reflexivity.
Qed.

Lemma word_count_app (f x : str) :
  (f = [] \/ exists f', f = f' ++ lit " ") ->
  Scan.token_count false (f ++ x)
  = Scan.token_count false f + Scan.token_count false x.
Proof.
  intros [-> | [f' ->]]; [reflexivity|].
  rewrite <- app_assoc. simpl.
  rewrite !token_count_app_gap by reflexivity. simpl. lia.
Qed.

(** X4: in every buffer reached from the empty one by whatever calls,
    [add_final_text] raises the word count by exactly the number of words of
    the text it is given. *)
Theorem word_count_adds_up (ops : list TextBuffer.op) (text : str) :
  let self := TextBuffer.run TextBuffer.init ops in
  TextBuffer.get_word_count (TextBuffer.add_final_text self text)
  = TextBuffer.get_word_count self + length (split text).
Proof.
  intros self.
  destruct text as [|c text];
    [simpl TextBuffer.add_final_text; rewrite split_equation_1; simpl; lia|].
  unfold TextBuffer.get_word_count.
  rewrite !split_length_token_count.
  cbn [TextBuffer.add_final_text TextBuffer.final_text].
  rewrite word_count_app
    by (apply run_final_text_ends_in_space; left; reflexivity).
  f_equal.
  change (lit " ") with (" "%char :: @nil ascii).
  rewrite token_count_app_gap by reflexivity.
  change (Scan.token_count false []) with 0. rewrite Nat.add_0_r.
  rewrite clean_text_scan. apply token_count_normalize.
Qed.

Lemma exec_add_final_text (self : TextBuffer.t) (o : TextBuffer.op) :
  is_add o ->
  TextBuffer.final_text (TextBuffer.exec self o)
  = TextBuffer.final_text self ++ committed o.
Proof.
  destruct o as [t|t|]; simpl; intros Hadd.
  - destruct t; simpl; rewrite app_nil_r; reflexivity.
  - destruct t; simpl; [rewrite app_nil_r|]; reflexivity.
  - destruct Hadd.
Qed.

Lemma run_add_final_text (ops : list TextBuffer.op) (self : TextBuffer.t) :
  Forall is_add ops ->
  TextBuffer.final_text (TextBuffer.run self ops)
  = TextBuffer.final_text self ++ concat (committed <$> ops).
Proof.
  intros Hall. revert self.
  induction Hall as [|o ops Ho _ IH]; intros self; simpl;
    [rewrite app_nil_r; reflexivity|].
  unfold TextBuffer.run in IH. rewrite IH, (exec_add_final_text self o Ho).
  rewrite <- app_assoc. reflexivity.
Qed.

(** X5: the final text is the concatenation of what the calls since the last
    [clear] committed, in their order: each non-empty final its normal form
    and one space, every other call nothing. *)
Theorem final_text_is_concatenation
    (self : TextBuffer.t) (before ops : list TextBuffer.op)
    (Hadd : Forall is_add ops) :
  TextBuffer.final_text (TextBuffer.run self ops)
  = TextBuffer.final_text self ++ concat (committed <$> ops) /\
  TextBuffer.final_text
    (TextBuffer.run self (before ++ TextBuffer.Clear :: ops))
  = concat (committed <$> ops).
Proof.
  split; [apply run_add_final_text; exact Hadd|].
  unfold TextBuffer.run. rewrite foldl_app. simpl.
  fold (TextBuffer.run
          (TextBuffer.clear (foldl TextBuffer.exec self before)) ops).
  rewrite run_add_final_text by exact Hadd. reflexivity.
Qed.

Lemma final_text_is_concatenation_witness :
  TextBuffer.final_text
    (TextBuffer.run TextBuffer.init
       [TextBuffer.AddFinal (lit "old text"); TextBuffer.Clear;
        TextBuffer.AddPartial (lit "how are");
        TextBuffer.AddFinal (lit " how  are you ");
        TextBuffer.AddFinal (lit "");
        TextBuffer.AddFinal (lit "fine")])
  = concat
      (committed <$>
         [TextBuffer.AddPartial (lit "how are");
          TextBuffer.AddFinal (lit " how  are you ");
          TextBuffer.AddFinal (lit "");
          TextBuffer.AddFinal (lit "fine")]).
Proof.
  refine (proj2 (final_text_is_concatenation TextBuffer.init
    [TextBuffer.AddFinal (lit "old text")]
    [TextBuffer.AddPartial (lit "how are");
     TextBuffer.AddFinal (lit " how  are you ");
     TextBuffer.AddFinal (lit "");
     TextBuffer.AddFinal (lit "fine")] _)).
  repeat constructor.
Defined.

Lemma clean_all_space (text : str) :
  Forall (fun c => isspace c = true) text -> TextBuffer._clean_text text = [].
Proof.
  intros Hall. rewrite clean_text_scan. unfold strip, lstrip.
  rewrite (drop_while_all _ _ Hall). reflexivity.
Qed.

Lemma strip_app_all_space (f ws : str) :
  Forall (fun c => isspace c = true) ws -> strip (f ++ ws) = strip f.
Proof.
  intros Hws. unfold strip, lstrip.
  assert (Hr : forall x : str, rstrip (x ++ ws) = rstrip x).
  { induction x as [|c x IHx]; simpl.
    - apply rstrip_nil_all_space, Hws.
    - rewrite IHx. reflexivity. }
  induction f as [|c f IH]; simpl.
  - rewrite (drop_while_all _ _ Hws). reflexivity.
  - destruct (isspace c); [exact IH|].
    change (c :: f ++ ws) with ((c :: f) ++ ws). apply Hr.
Qed.

(** X6: a final that is not empty but holds whitespace only commits no word:
    one space is appended to the final text, the word count stays, the
    partial text is dropped from the display all the same, and the buffer no
    longer counts as empty. *)
Theorem whitespace_only_final
    (self : TextBuffer.t) (text : str)
    (Hne : text <> []) (Hws : Forall (fun c => isspace c = true) text) :
  let after := TextBuffer.add_final_text self text in
  TextBuffer.final_text after = TextBuffer.final_text self ++ lit " " /\
  TextBuffer.partial_text after = [] /\
  TextBuffer.get_word_count after = TextBuffer.get_word_count self /\
  TextBuffer.get_full_text after = TextBuffer.get_final_text_only self /\
  TextBuffer.is_empty after = false.
Proof.
  destruct text as [|c text]; [contradiction|].
  cbn zeta. cbn [TextBuffer.add_final_text TextBuffer.final_text
                 TextBuffer.partial_text].
  rewrite (clean_all_space _ Hws). simpl app.
  split; [reflexivity | split; [reflexivity | split; [| split]]].
  - unfold TextBuffer.get_word_count. simpl TextBuffer.final_text.
    rewrite !split_length_token_count, token_count_app_gap by reflexivity.
    simpl. lia.
  - unfold TextBuffer.get_full_text, TextBuffer.get_final_text_only.
    simpl TextBuffer.final_text. simpl TextBuffer.partial_text.
    rewrite app_nil_r, strip_app_all_space; [reflexivity|].
    repeat constructor.
  - unfold TextBuffer.is_empty. simpl.
    destruct (TextBuffer.final_text self); reflexivity.
Qed.

Lemma whitespace_only_final_witness :
  TextBuffer.get_full_text
    (TextBuffer.add_final_text
       (TextBuffer.add_partial_text
          (TextBuffer.add_final_text TextBuffer.init (lit "good morning"))
          (lit "how"))
       (lit "  "))
  = TextBuffer.get_final_text_only
      (TextBuffer.add_partial_text
         (TextBuffer.add_final_text TextBuffer.init (lit "good morning"))
         (lit "how")).
Proof.
  refine (proj1 (proj2 (proj2 (proj2
    (whitespace_only_final
       (TextBuffer.add_partial_text
          (TextBuffer.add_final_text TextBuffer.init (lit "good morning"))
          (lit "how"))
       (lit "  ") _ _))))).
  - discriminate.
  - repeat constructor.
Defined.

(** X7: a partial text is provisional.  A later partial replaces it and a
    later non-empty final erases it, so that the buffer is the one that never
    saw it; the partial text kept is always in normal form. *)
Theorem partial_leaves_no_trace
    (self : TextBuffer.t) (partial later : str) (c : ascii) (final : str) :
  TextBuffer.add_partial_text (TextBuffer.add_partial_text self partial) later
  = TextBuffer.add_partial_text self later /\
  TextBuffer.add_final_text (TextBuffer.add_partial_text self partial)
    (c :: final)
  = TextBuffer.add_final_text self (c :: final) /\
  TextBuffer.get_partial_text_only (TextBuffer.add_partial_text self partial)
  = TextBuffer._clean_text partial /\
  TextBuffer._clean_text
    (TextBuffer.get_partial_text_only
       (TextBuffer.add_partial_text self partial))
  = TextBuffer.get_partial_text_only (TextBuffer.add_partial_text self partial).
Proof.
  split; [| split; [| split]].
  - destruct partial, later; reflexivity.
  - destruct partial; reflexivity.
  - destruct partial; reflexivity.
  - destruct partial as [|d partial]; [reflexivity|].
    apply (clean_text_idem (d :: partial)).
Qed.

(** ** The capture queue over a whole recording *)

Lemma recording_pass_items (self : AudioCapture.t) (data : bytes) :
  Queue.maxsize (AudioCapture.audio_queue self) = 100%Z ->
  Queue.qsize (AudioCapture.audio_queue self) <= 100 ->
  let q := AudioCapture.audio_queue
             (AudioCapture.self'
                (AudioCapture._recording_worker_pass self (Ok data))) in
  Queue.maxsize q = 100%Z /\
  Queue.items q
  = drop (length (Queue.items (AudioCapture.audio_queue self) ++ [data]) - 100)
      (Queue.items (AudioCapture.audio_queue self) ++ [data]).
Proof.
  intros Hmax Hsize.
  destruct (decide (Queue.qsize (AudioCapture.audio_queue self) = 100)) as [Hfull|Hroom].
  - destruct (recording_pass_drops_oldest 100 self data)
      as (oldest & rest & Hitems & Hpass); [lia | exact Hmax | exact Hfull |].
    rewrite Hpass. split; [reflexivity|].
    unfold Queue.qsize in Hfull. rewrite Hitems in *. simpl in Hfull.
    assert (Hlen : length ((oldest :: rest) ++ [data]) - 100 = 1)
      by (rewrite length_app; simpl; lia).
    rewrite Hlen. reflexivity.
  - unfold AudioCapture._recording_worker_pass, Queue.put, Queue.full.
    rewrite Hmax.
    replace (100 <=? Z.of_nat (Queue.qsize (AudioCapture.audio_queue self)))%Z
      with false by (symmetry; apply Z.leb_gt; lia).
    simpl. split; [reflexivity|].
    assert (Hlen : length (Queue.items (AudioCapture.audio_queue self) ++ [data])
                   - 100 = 0)
      by (unfold Queue.qsize in *; rewrite length_app; simpl; lia).
    rewrite Hlen. reflexivity.
Qed.

Lemma record_snoc (capture : AudioCapture.t) (reads : list (outcome bytes))
    (read : outcome bytes) :
  Pipeline.record capture (reads ++ [read])
  = AudioCapture.self'
      (AudioCapture._recording_worker_pass (Pipeline.record capture reads) read).
Proof. unfold Pipeline.record. rewrite foldl_app. reflexivity. Qed.

Lemma frames_of_snoc (reads : list (outcome bytes)) (read : outcome bytes) :
  Pipeline.frames_of (reads ++ [read])
  = Pipeline.frames_of reads
    ++ match read with Ok data => [data] | Raise _ => [] end.
Proof.
  unfold Pipeline.frames_of. rewrite omap_app. simpl.
  destruct read; reflexivity.
Qed.

Lemma record_items (reads : list (outcome bytes)) :
  let q := AudioCapture.audio_queue (Pipeline.record AudioCapture.init reads) in
  Queue.maxsize q = 100%Z /\
  Queue.items q
  = drop (length (Pipeline.frames_of reads) - 100) (Pipeline.frames_of reads).
Proof.
  induction reads as [|read reads IH] using rev_ind; [split; reflexivity|].
  destruct IH as [Hmax Hitems]. cbv zeta.
  rewrite record_snoc, frames_of_snoc.
  set (capture := Pipeline.record AudioCapture.init reads) in *.
  set (frames := Pipeline.frames_of reads) in *.
  destruct read as [data|e].
  - assert (Hsize : Queue.qsize (AudioCapture.audio_queue capture) <= 100).
    { unfold Queue.qsize. rewrite Hitems, length_drop. lia. }
    destruct (recording_pass_items capture data Hmax Hsize) as [Hmax' Hitems'].
    split; [exact Hmax'|]. rewrite Hitems', Hitems.
    rewrite <- drop_app_le by lia.
    rewrite drop_drop. f_equal.
    rewrite length_drop, !length_app. simpl. lia.
  - rewrite app_nil_r. split; assumption.
Qed.

(** X8: the capture queue holds the newest frames in their order.  After any
    run of the capture loop from a new [AudioCapture], the queue holds the
    last 100 of the frames read (all of them while they are at most 100); a
    failed read adds nothing.  The next [get_audio_chunk] hands out the oldest
    frame held, or [None] when nothing was read. *)
Theorem capture_queue_keeps_newest (reads : list (outcome bytes)) :
  let frames := Pipeline.frames_of reads in
  let capture := Pipeline.record AudioCapture.init reads in
  Queue.items (AudioCapture.audio_queue capture)
  = drop (length frames - 100) frames /\
  fst (fst (AudioCapture.get_audio_chunk capture 100))
  = frames !! (length frames - 100).
Proof.
  intros frames capture.
  destruct (record_items reads) as [_ Hitems].
  fold capture frames in Hitems.
  split; [exact Hitems|].
  unfold AudioCapture.get_audio_chunk, Queue.get. rewrite Hitems.
  destruct (drop (length frames - 100) frames) as [|x rest] eqn:E; simpl.
  - symmetry. apply lookup_ge_None.
    apply (f_equal length) in E. rewrite length_drop in E. simpl in E. lia.
  - rewrite <- (Nat.add_0_r (length frames - 100)), <- lookup_drop, E.
    reflexivity.
Qed.

(** ** Clearing the queues *)

Lemma drain_items_empty {A} (fuel : nat) (q : Queue.t A) :
  Queue.qsize q <= fuel ->
  Queue.drain_items fuel q = Queue.mk (Queue.maxsize q) [].
Proof.
  revert q. induction fuel as [|fuel IH]; intros [m items] Hsize;
    unfold Queue.qsize in Hsize; simpl in *.
  - destruct items; [reflexivity | simpl in Hsize; lia].
  - destruct items as [|x items]; [reflexivity|].
    unfold Queue.empty, Queue.get_nowait. simpl.
    rewrite IH; [reflexivity|]. unfold Queue.qsize. simpl in *. lia.
Qed.

Lemma drain_empty {A} (q : Queue.t A) :
  Queue.drain q = Queue.mk (Queue.maxsize q) [].
Proof. apply drain_items_empty. lia. Qed.

(** X9: clearing empties.  [_clear_queues] leaves both queues of the
    application empty with their capacity, and nothing else changed;
    [clear_queue] does the same to the queue of the capture object.  The frames
    and updates waiting are dropped, however many there are. *)
Theorem clear_queues_empties
    {R : Type} (self : LarynxApp.t R) (capture : AudioCapture.t) :
  LarynxApp._clear_queues self
  = LarynxApp.set_text_queue
      (LarynxApp.set_audio_queue self
         (Queue.mk (Queue.maxsize (LarynxApp.audio_queue self)) []))
      (Queue.mk (Queue.maxsize (LarynxApp.text_queue self)) []) /\
  AudioCapture.clear_queue capture
  = AudioCapture.with_queue capture
      (Queue.mk (Queue.maxsize (AudioCapture.audio_queue capture)) []) /\
  AudioCapture.get_queue_size (AudioCapture.clear_queue capture) = 0 /\
  fst (fst (AudioCapture.get_audio_chunk (AudioCapture.clear_queue capture) 100))
  = None.
Proof.
  unfold LarynxApp._clear_queues, AudioCapture.clear_queue.
  rewrite !drain_empty. repeat split.
Qed.

(** ** The choice of the input device *)

Lemma contains_longer (s a p : str) :
  contains s (a ++ p) = true -> contains s p = true.
Proof.
  rewrite !contains_spec. intros (x & y & ->).
  exists (x ++ a), y. rewrite <- !app_assoc. reflexivity.
Qed.

(** The devices with input channels, in rising order of their index, from
    the offset [k] on. *)
Lemma find_input_device (p : AudioCapture.device_info -> bool)
    (infos : list AudioCapture.device_info) (k i : nat)
    (d : AudioCapture.device_info) :
  List.find (fun x => p (snd x))
    (List.filter (fun x => (0 <? AudioCapture.maxInputChannels (snd x))%Z)
       (imap (fun j info => (k + j, info)) infos))
  = Some (i, d) ->
  exists n,
    i = k + n /\ infos !! n = Some d /\
    (0 < AudioCapture.maxInputChannels d)%Z /\ p d = true /\
    forall m d', m < n -> infos !! m = Some d' ->
      (0 < AudioCapture.maxInputChannels d')%Z -> p d' = false.
Proof.
  revert k. induction infos as [|x infos IH]; intros k; simpl; [discriminate|].
  assert (Hrest :
    List.find (fun x => p (snd x))
      (List.filter (fun x => (0 <? AudioCapture.maxInputChannels (snd x))%Z)
         (imap ((fun j info => (k + j, info)) ∘ S) infos)) = Some (i, d) ->
    ((0 < AudioCapture.maxInputChannels x)%Z -> p x = false) ->
    exists n,
      i = k + n /\ (x :: infos) !! n = Some d /\
      (0 < AudioCapture.maxInputChannels d)%Z /\ p d = true /\
      forall m d', m < n -> (x :: infos) !! m = Some d' ->
        (0 < AudioCapture.maxInputChannels d')%Z -> p d' = false).
  { intros Hfind Hx.
    rewrite (imap_ext _ (fun j info => (S k + j, info))) in Hfind
      by (intros; simpl; f_equal; lia).
    destruct (IH (S k) Hfind) as (n & -> & Hn & Hq & Hp & Hmin).
    exists (S n). repeat split; [lia | exact Hn | exact Hq | exact Hp |].
    intros [|m] d' Hm Hd' Hq'.
    - injection Hd' as <-. apply Hx, Hq'.
    - simpl in Hd'. apply (Hmin m d'); [lia | exact Hd' | exact Hq']. }
  destruct (0 <? AudioCapture.maxInputChannels x)%Z eqn:Eq; simpl.
  - destruct (p x) eqn:Ep.
    + intros [= <- <-]. exists 0.
      split; [lia|]. split; [reflexivity|].
      split; [apply Z.ltb_lt, Eq|]. split; [exact Ep|].
      intros m d' Hm. lia.
    + intros Hfind. apply (Hrest Hfind). intros _. reflexivity.
  - intros Hfind. apply (Hrest Hfind).
    intros Hq. apply Z.ltb_ge in Eq. lia.
Qed.

Lemma in_input_devices (infos : list AudioCapture.device_info) (i : nat)
    (d : AudioCapture.device_info) :
  In (i, d) (AudioCapture.input_devices infos) <->
  infos !! i = Some d /\ (0 < AudioCapture.maxInputChannels d)%Z.
Proof.
  unfold AudioCapture.input_devices.
  rewrite filter_In, <- list_elem_of_In, elem_of_lookup_imap. simpl.
  rewrite Z.ltb_lt. split.
  - intros [(j & x & [= -> ->] & Hx) Hq]. auto.
  - intros [Hx Hq]. split; [eauto | exact Hq].
Qed.

Lemma input_devices_head (infos : list AudioCapture.device_info) :
  match AudioCapture.input_devices infos with
  | d :: _ =>
      infos !! fst d = Some (snd d) /\
      (0 < AudioCapture.maxInputChannels (snd d))%Z
  | [] => Forall (fun d => (AudioCapture.maxInputChannels d <= 0)%Z) infos
  end.
Proof.
  destruct (AudioCapture.input_devices infos) as [|[i d] devices] eqn:E.
  - apply Forall_lookup. intros i d Hd.
    destruct (Z.lt_ge_cases 0 (AudioCapture.maxInputChannels d)) as [Hq|Hq];
      [|lia].
    assert (Hin : In (i, d) (AudioCapture.input_devices infos))
      by (apply in_input_devices; auto).
    rewrite E in Hin. destruct Hin.
  - apply in_input_devices. rewrite E. left. reflexivity.
Qed.

Lemma first_preferred_sound (patterns : list str)
    (infos : list AudioCapture.device_info) (i : nat) :
  AudioCapture.first_preferred patterns (AudioCapture.input_devices infos)
  = Some i ->
  exists d, infos !! i = Some d /\ (0 < AudioCapture.maxInputChannels d)%Z.
Proof.
  induction patterns as [|pattern patterns IH]; simpl; [discriminate|].
  destruct (List.find _ _) as [[j d]|] eqn:E; [|exact IH].
  intros [= <-]. apply find_some in E as [Hin _].
  exists d. apply in_input_devices, Hin.
Qed.

(** X10: the device chosen exists and can record.  When PyAudio answers,
    [_select_preferred_device] returns the index of a device that has input
    channels, and [None] only when no device has any; when PyAudio raises it
    returns [None] and prints one warning. *)
Theorem selected_device_has_input
    (infos : list AudioCapture.device_info) (e : exn) :
  match fst (AudioCapture._select_preferred_device (Ok infos)) with
  | Some i =>
      exists d, infos !! i = Some d /\ (0 < AudioCapture.maxInputChannels d)%Z
  | None => Forall (fun d => (AudioCapture.maxInputChannels d <= 0)%Z) infos
  end /\
  snd (AudioCapture._select_preferred_device (Ok infos)) = [] /\
  AudioCapture._select_preferred_device (Raise e)
  = (None, [lit "Warning: Could not select device: " ++ exn_str e]).
Proof.
  split; [| split; [| reflexivity]].
  - unfold AudioCapture._select_preferred_device.
    destruct (AudioCapture.first_preferred _ _) as [i|] eqn:E; simpl.
    + eapply first_preferred_sound, E.
    + pose proof (input_devices_head infos) as Hhead.
      destruct (AudioCapture.input_devices infos) as [|[i d] devices];
        [exact Hhead | eauto].
  - unfold AudioCapture._select_preferred_device.
    destruct (AudioCapture.first_preferred _ _); reflexivity.
Qed.

Lemma input_devices_offset (infos : list AudioCapture.device_info) :
  AudioCapture.input_devices infos
  = List.filter (fun x => (0 <? AudioCapture.maxInputChannels (snd x))%Z)
      (imap (fun j info => (0 + j, info)) infos).
Proof. reflexivity. Qed.

Lemma find_preferred_lowest (pattern : str)
    (infos : list AudioCapture.device_info) (i : nat)
    (d : AudioCapture.device_info) :
  infos !! i = Some d ->
  (0 < AudioCapture.maxInputChannels d)%Z ->
  contains (lower (AudioCapture.name d)) pattern = true ->
  (forall j d', j < i -> infos !! j = Some d' ->
     (0 < AudioCapture.maxInputChannels d')%Z ->
     contains (lower (AudioCapture.name d')) pattern = false) ->
  List.find (fun x => contains (lower (AudioCapture.name (snd x))) pattern)
    (AudioCapture.input_devices infos)
  = Some (i, d).
Proof.
  intros Hd Hq Hp Hlow.
  destruct (List.find _ (AudioCapture.input_devices infos)) as [[i' d']|] eqn:E.
  - rewrite input_devices_offset in E.
    apply (find_input_device
             (fun x => contains (lower (AudioCapture.name x)) pattern)) in E.
    destruct E as (n & -> & Hn & Hq' & Hp' & Hmin). simpl.
    destruct (Nat.lt_trichotomy n i) as [Hlt | [-> | Hgt]].
    + rewrite (Hlow n d' Hlt Hn Hq') in Hp'. discriminate Hp'.
    + congruence.
    + rewrite (Hmin i d Hgt Hd Hq) in Hp. discriminate Hp.
  - apply find_none with (x := (i, d)) in E;
      [simpl in E; congruence | apply in_input_devices; auto].
Qed.

(** X11: the order of preference.  When a device with input channels has
    "pulse" in its lower-cased name, the device chosen is the one of lowest
    index among these, whatever else is there.  The third pattern never
    decides: a name that contains "sysdefault" contains "default", so the
    choice is the one that the patterns "pulse" and "default" alone give. *)
Theorem pulse_device_preferred
    (infos : list AudioCapture.device_info) (i : nat)
    (d : AudioCapture.device_info)
    (Hd : infos !! i = Some d)
    (Hinput : (0 < AudioCapture.maxInputChannels d)%Z)
    (Hpulse : contains (lower (AudioCapture.name d)) (lit "pulse") = true)
    (Hlowest : forall j d', j < i -> infos !! j = Some d' ->
       (0 < AudioCapture.maxInputChannels d')%Z ->
       contains (lower (AudioCapture.name d')) (lit "pulse") = false) :
  AudioCapture._select_preferred_device (Ok infos) = (Some i, []) /\
  (forall devices : list (nat * AudioCapture.device_info),
      AudioCapture.first_preferred AudioCapture.preferred_patterns devices
      = AudioCapture.first_preferred [lit "pulse"; lit "default"] devices).
Proof.
  split.
  - unfold AudioCapture._select_preferred_device, AudioCapture.preferred_patterns.
    cbn [AudioCapture.first_preferred].
    rewrite (find_preferred_lowest (lit "pulse") infos i d Hd Hinput Hpulse Hlowest).
    reflexivity.
  - intros devices. unfold AudioCapture.preferred_patterns.
    cbn [AudioCapture.first_preferred].
    destruct (List.find _ devices) as [x|]; [reflexivity|].
    destruct (List.find
                (fun x => contains (lower (AudioCapture.name (snd x)))
                            (lit "default")) devices) as [x|] eqn:Edef;
      [reflexivity|].
    destruct (List.find
                (fun x => contains (lower (AudioCapture.name (snd x)))
                            (lit "sysdefault")) devices) as [x|] eqn:Esys;
      [|reflexivity].
    apply find_some in Esys as [Hin Hsys].
    apply (contains_longer _ (lit "sys") (lit "default")) in Hsys.
    rewrite (find_none _ _ Edef x Hin) in Hsys. discriminate Hsys.
Qed.

Lemma pulse_device_preferred_witness :
  AudioCapture._select_preferred_device
    (Ok [AudioCapture.mk_device (lit "HDA Intel PCH: ALC3246 Analog (hw:0,0)") 2;
         AudioCapture.mk_device (lit "pulse out") 0;
         AudioCapture.mk_device (lit "sysdefault") 128;
         AudioCapture.mk_device (lit "PulseAudio") 32;
         AudioCapture.mk_device (lit "default") 32])
  = (Some 3, []).
Proof.
  refine (proj1 (pulse_device_preferred _ 3
                   (AudioCapture.mk_device (lit "PulseAudio") 32) _ _ _ _)).
  - reflexivity.
  - reflexivity.
  - reflexivity.
  - intros [|[|[|j]]] d' Hj; [| | |lia]; intros [= <-]; simpl; intros Hq;
      try reflexivity; try lia.
Defined.

(** ** What the engine hands out *)

Section EngineMore.
Context {R : Type} `{VoskEngine.KaldiRecognizer R}.
Variable loads : str -> outcome VoskEngine.json.

Lemma strip_nil : strip [] = [].
Proof. reflexivity. Qed.

Lemma process_audio_body_stripped (audio_data : bytes) (r r' : R)
    (results : gmap string (option str)) :
  VoskEngine.process_audio_body loads audio_data VoskEngine.no_results r
  = (r', Ok results) ->
  exists text : str,
    strip text = text /\
    (results = <["final" := Some text]> VoskEngine.no_results \/
     results = <["partial" := Some text]> VoskEngine.no_results).
Proof.
  unfold VoskEngine.process_audio_body, VoskEngine.bind, VoskEngine.lift,
    VoskEngine.ret.
  destruct (VoskEngine.AcceptWaveform r audio_data) as [r1 [[|]|e]];
    [| |discriminate].
  - destruct (VoskEngine.Result r1) as [r2 [doc|e]]; [|discriminate].
    destruct (loads doc) as [d|e]; [|discriminate].
    destruct (VoskEngine.get_strip d "text") as [text|e] eqn:Et; [|discriminate].
    intros [= _ <-]. exists text.
    split; [eapply get_strip_stripped, Et | auto].
  - destruct (VoskEngine.PartialResult r1) as [r2 [doc|e]]; [|discriminate].
    destruct (loads doc) as [d|e]; [|discriminate].
    destruct (VoskEngine.get_strip d "partial") as [text|e] eqn:Et; [|discriminate].
    intros [= _ <-]. exists text.
    split; [eapply get_strip_stripped, Et | auto].
Qed.

Lemma get_final_result_cases (self : VoskEngine.t R) :
  let '(engine, out, text) := VoskEngine.get_final_result loads self in
  strip text = text /\
  VoskEngine.is_active engine = VoskEngine.is_active self /\
  (VoskEngine.recognizer engine = None <-> VoskEngine.recognizer self = None) /\
  (out = [] \/
   exists e, out = [lit "Error getting final result: " ++ exn_str e] /\ text = []).
Proof.
  destruct self as [[r|] [|]]; simpl; try (repeat split; auto).
  unfold VoskEngine.get_final_result, VoskEngine.bind, VoskEngine.lift. simpl.
  destruct (VoskEngine.Result r) as [r1 [doc|e]];
    [| repeat split; try discriminate; eauto].
  destruct (loads doc) as [d|e]; [| repeat split; try discriminate; eauto].
  destruct (VoskEngine.get_strip d "text") as [text|e] eqn:Et;
    [| repeat split; try discriminate; eauto].
  split; [eapply get_strip_stripped, Et|].
  repeat split; try discriminate; auto.
Qed.

Lemma get_partial_result_cases (self : VoskEngine.t R) :
  let '(engine, out, text) := VoskEngine.get_partial_result loads self in
  strip text = text /\
  VoskEngine.is_active engine = VoskEngine.is_active self /\
  (VoskEngine.recognizer engine = None <-> VoskEngine.recognizer self = None) /\
  (out = [] \/
   exists e, out = [lit "Error getting partial result: " ++ exn_str e] /\ text = []).
Proof.
  destruct self as [[r|] [|]]; simpl; try (repeat split; auto).
  unfold VoskEngine.get_partial_result, VoskEngine.bind, VoskEngine.lift. simpl.
  destruct (VoskEngine.PartialResult r) as [r1 [doc|e]];
    [| repeat split; try discriminate; eauto].
  destruct (loads doc) as [d|e]; [| repeat split; try discriminate; eauto].
  destruct (VoskEngine.get_strip d "partial") as [text|e] eqn:Et;
    [| repeat split; try discriminate; eauto].
  split; [eapply get_strip_stripped, Et|].
  repeat split; try discriminate; auto.
Qed.

End EngineMore.

(** X12: every text the engine hands out is stripped.  The entries of the
    [dict] of [process_audio] that are not [None], and the texts of
    [get_final_result] and [get_partial_result], have no whitespace at either
    end.  The two getters keep the engine active as it was and its recogniser
    present as it was, and when they print an error their text is empty. *)
Theorem engine_texts_are_stripped
    {R : Type} `{VoskEngine.KaldiRecognizer R}
    (loads : str -> outcome VoskEngine.json)
    (self : VoskEngine.t R) (audio_data : bytes) :
  map_Forall
    (fun _ entry =>
       match entry with
       | Some text => strip text = text
       | None => True
       end)
    (snd (VoskEngine.process_audio loads self audio_data)) /\
  (let '(engine, out, text) := VoskEngine.get_final_result loads self in
   strip text = text /\
   VoskEngine.is_active engine = VoskEngine.is_active self /\
   (VoskEngine.recognizer engine = None <-> VoskEngine.recognizer self = None) /\
   (out = [] \/
    exists e, out = [lit "Error getting final result: " ++ exn_str e]
              /\ text = [])) /\
  (let '(engine, out, text) := VoskEngine.get_partial_result loads self in
   strip text = text /\
   VoskEngine.is_active engine = VoskEngine.is_active self /\
   (VoskEngine.recognizer engine = None <-> VoskEngine.recognizer self = None) /\
   (out = [] \/
    exists e, out = [lit "Error getting partial result: " ++ exn_str e]
              /\ text = [])).
Proof.
  split; [| split; [apply get_final_result_cases | apply get_partial_result_cases]].
  assert (Hnone : map_Forall
    (fun (_ : string) (entry : option str) =>
       match entry with Some text => strip text = text | None => True end)
    VoskEngine.no_results).
  { unfold VoskEngine.no_results.
    apply map_Forall_insert_2; [exact I|].
    apply map_Forall_insert_2; [exact I|]. apply map_Forall_empty. }
  destruct self as [[r|] [|]]; simpl; try exact Hnone.
  unfold VoskEngine.process_audio. simpl.
  destruct (VoskEngine.process_audio_body loads audio_data
              VoskEngine.no_results r) as [r' [results|e]] eqn:E; simpl;
    [|exact Hnone].
  destruct (process_audio_body_stripped loads _ _ _ _ E)
    as (text & Hs & [-> | ->]); apply map_Forall_insert_2; assumption.
Qed.

(** X13: restarting the engine.  After [reset] the engine is idle:
    [process_audio] answers [None] twice and [get_final_result] the empty
    text, so a result the old recogniser still held is gone; a second [reset]
    changes nothing.  With the model loaded [start] leaves the engine active
    with the new recogniser whatever it was before, and the old recogniser is
    dropped; without the model it raises and the engine is as before. *)
Theorem engine_restart
    {R : Type} `{VoskEngine.KaldiRecognizer R}
    (loads : str -> outcome VoskEngine.json)
    (self : VoskEngine.t R) (fresh : R) (audio_data : bytes) :
  let idle := fst (VoskEngine.reset self) in
  VoskEngine.is_recognizing idle = false /\
  VoskEngine.process_audio loads idle audio_data
  = (idle, [], VoskEngine.no_results) /\
  VoskEngine.get_final_result loads idle = (idle, [], []) /\
  fst (VoskEngine.reset idle) = idle /\
  fst (VoskEngine.start true fresh self)
  = Ok (VoskEngine.mk (Some fresh) true) /\
  fst (VoskEngine.start true fresh idle) = fst (VoskEngine.start true fresh self) /\
  VoskEngine.start false fresh self
  = (Raise (Exception (lit "Model not loaded")), []).
Proof.
  repeat split.
  - unfold VoskEngine.start. simpl.
    destruct (VoskEngine.recognizer self); reflexivity.
  - unfold VoskEngine.start. simpl.
    destruct (VoskEngine.recognizer self); reflexivity.
Qed.

(** ** The queue to the GUI *)

Lemma format_text_twice (s : str) :
  TextBuffer._format_text (TextBuffer._format_text s) = TextBuffer._format_text s.
Proof.
  rewrite (format_text_scan s).
  pose proof (normalized_tidy s) as Hn.
  set (n := Scan.squeeze false (strip s)) in *.
  rewrite format_text_scan.
  destruct Hn as [Hnil | Htidy]; [rewrite Hnil; reflexivity|].
  assert (Hout : Scan.tidy_from true (Scan.capitalize false (Scan.cap_first n)))
    by (apply tidy_capitalize, tidy_cap_first, Htidy).
  rewrite (tidy_strip _ Hout), (tidy_squeeze _ _ (tidy_weaken _ Hout)).
  rewrite cap_first_capitalize. apply capitalize_idem.
Qed.

Lemma token_count_app_le (in_token : bool) (f p : str) :
  Scan.token_count in_token f <= Scan.token_count in_token (f ++ p).
Proof.
  revert in_token. induction f as [|c f IH]; intros b; simpl; [lia|].
  destruct (isspace c); [apply IH|].
  specialize (IH true). lia.
Qed.

(** The display text of a buffer is in display form and shows every word
    that the buffer counts. *)
Lemma full_text_sound (self : TextBuffer.t) :
  Pipeline.display_form (TextBuffer.get_full_text self) /\
  TextBuffer.get_word_count self
  <= length (split (TextBuffer.get_full_text self)).
Proof.
  split; [apply format_text_twice|].
  unfold TextBuffer.get_word_count, TextBuffer.get_full_text.
  rewrite !split_length_token_count, format_text_scan.
  rewrite token_count_capitalize, token_count_cap_first, strip_idem.
  rewrite token_count_normalize. apply token_count_app_le.
Qed.

Section QueueToGui.
Context {R : Type} `{VoskEngine.KaldiRecognizer R}.
Variable loads : str -> outcome VoskEngine.json.

Lemma sound_same_queue (n : nat) (self self' : LarynxApp.t R) :
  LarynxApp.text_queue self' = LarynxApp.text_queue self ->
  Pipeline.text_queue_sound n self -> Pipeline.text_queue_sound n self'.
Proof. unfold Pipeline.text_queue_sound. intros ->. exact id. Qed.

Lemma sound_call_gui (n : nat) (self : LarynxApp.t R) (c : LarynxApp.gui_call) :
  Pipeline.text_queue_sound n self ->
  Pipeline.text_queue_sound n (LarynxApp.call_gui self c).
Proof. exact id. Qed.

Lemma sound_print (n : nat) (self : LarynxApp.t R) (lines : list str) :
  Pipeline.text_queue_sound n self ->
  Pipeline.text_queue_sound n (LarynxApp.print self lines).
Proof. exact id. Qed.

Lemma sound_send (n : nat) (self : LarynxApp.t R) (kind : string) (text : str) :
  0 < n ->
  Pipeline.display_form text ->
  Pipeline.text_queue_sound n self ->
  Pipeline.text_queue_sound n (LarynxApp._send_text_update self kind text).
Proof.
  intros Hn Hform [Hwithin Hall].
  unfold LarynxApp._send_text_update.
  destruct (Queue.put _ _ _) as [[q|e] w] eqn:Hput; [|split; assumption].
  split; simpl.
  - exact (put_within n _ _ _ _ _ Hn Hwithin Hput).
  - destruct (put_ok _ _ _ _ _ Hput) as (_ & _ & _ & ->).
    apply Forall_app. split; [exact Hall|].
    constructor; [exact Hform | constructor].
Qed.

Lemma sound_send_full_text (n : nat) (self : LarynxApp.t R) (kind : string) :
  0 < n ->
  Pipeline.text_queue_sound n self ->
  Pipeline.text_queue_sound n
    (LarynxApp._send_text_update self kind
       (TextBuffer.get_full_text (LarynxApp.text_buffer self))).
Proof.
  intros Hn. destruct (full_text_sound (LarynxApp.text_buffer self)).
  apply sound_send; assumption.
Qed.

Lemma sound_finalize (n : nat) (self : LarynxApp.t R) :
  0 < n ->
  Pipeline.text_queue_sound n self ->
  Pipeline.text_queue_sound n (LarynxApp._finalize_transcription loads self).
Proof.
  intros Hn Hs. unfold LarynxApp._finalize_transcription.
  destruct (VoskEngine.get_final_result loads (LarynxApp.vosk_engine self))
    as [[engine out] final].
  destruct final as [|c final]; [exact Hs|].
  apply sound_send_full_text; [exact Hn | exact Hs].
Qed.

Lemma sound_asr_pass (n : nat) (self : LarynxApp.t R) :
  0 < n ->
  Pipeline.text_queue_sound n self ->
  Pipeline.text_queue_sound n (LarynxApp._asr_worker_pass loads self).
Proof.
  intros Hn Hs. unfold LarynxApp._asr_worker_pass.
  destruct (Queue.get (LarynxApp.audio_queue self) 100)
    as [[[chunk q]|e] w]; [|exact Hs].
  destruct (VoskEngine.process_audio loads _ chunk) as [[engine out] results].
  destruct (LarynxApp.truthy results "partial") as [partial|];
    destruct (LarynxApp.truthy results "final") as [final|];
    repeat (apply sound_send_full_text; [exact Hn|]); exact Hs.
Qed.

Lemma sound_clear_text (n : nat) (self : LarynxApp.t R) :
  0 < n ->
  Pipeline.text_queue_sound n self ->
  Pipeline.text_queue_sound n (LarynxApp.clear_text self).
Proof.
  intros Hn Hs. unfold LarynxApp.clear_text.
  apply sound_send; [exact Hn | reflexivity | exact Hs].
Qed.

Lemma sound_clear_queues (n : nat) (self : LarynxApp.t R) :
  Pipeline.text_queue_sound n self ->
  Pipeline.text_queue_sound n (LarynxApp._clear_queues self).
Proof.
  intros [Hwithin _]. unfold LarynxApp._clear_queues. split; simpl.
  - apply drain_within, Hwithin.
  - rewrite drain_empty. constructor.
Qed.

Lemma capture_pass_text_queue (self : LarynxApp.t R) :
  LarynxApp.text_queue (fst (LarynxApp._audio_capture_worker_pass self))
  = LarynxApp.text_queue self.
Proof.
  unfold LarynxApp._audio_capture_worker_pass.
  repeat case_match; reflexivity.
Qed.

Lemma sound_stop_recording (n : nat) (asr_exits : bool) (self : LarynxApp.t R) :
  0 < n ->
  Pipeline.text_queue_sound n self ->
  Pipeline.text_queue_sound n (LarynxApp.stop_recording loads asr_exits self).
Proof.
  intros Hn Hs. unfold LarynxApp.stop_recording.
  destruct (LarynxApp.recording self); simpl negb; cbv iota; [|exact Hs].
  apply sound_call_gui, sound_finalize; [exact Hn|].
  assert (Hstopped : Pipeline.text_queue_sound n (Pipeline.stopped self)).
  { apply (sound_same_queue n self); [|exact Hs].
    unfold Pipeline.stopped. repeat case_match; reflexivity. }
  destruct asr_exits; [|exact Hstopped].
  unfold LarynxApp._asr_worker_exit.
  apply sound_print, sound_finalize; [exact Hn | exact Hstopped].
Qed.

Lemma sound_start_recording (n : nat) (model : bool) (fresh : R)
    (self : LarynxApp.t R) :
  Pipeline.text_queue_sound n self ->
  Pipeline.text_queue_sound n
    (fst (LarynxApp.start_recording model fresh self)).
Proof.
  intros Hs. unfold LarynxApp.start_recording.
  destruct (LarynxApp.recording self); [exact Hs|].
  match goal with |- context [LarynxApp._clear_queues ?s] =>
    assert (Hc : Pipeline.text_queue_sound n (LarynxApp._clear_queues s))
      by (apply sound_clear_queues; exact Hs);
    set (cleared := LarynxApp._clear_queues s) in * end.
  repeat case_match; exact Hc.
Qed.

Lemma sound_shutdown (n : nat) (asr_exits : bool) (self : LarynxApp.t R) :
  0 < n ->
  Pipeline.text_queue_sound n self ->
  Pipeline.text_queue_sound n (LarynxApp.shutdown loads asr_exits self).
Proof.
  intros Hn Hs. unfold LarynxApp.shutdown. simpl LarynxApp.recording. cbv iota.
  match goal with |- context [if asr_exits then ?a else ?b] =>
    assert (Hmid : Pipeline.text_queue_sound n (if asr_exits then a else b));
      [| set (mid := if asr_exits then a else b) in * ] end.
  { destruct asr_exits; [|exact Hs].
    unfold LarynxApp._asr_worker_exit.
    apply sound_print, sound_finalize; [exact Hn | exact Hs]. }
  apply (sound_same_queue n mid); [|exact Hmid].
  repeat case_match; reflexivity.
Qed.

Lemma sound_obey (c : Pipeline.command) (self : LarynxApp.t R) :
  Pipeline.text_queue_sound 50 self ->
  Pipeline.text_queue_sound 50 (Pipeline.obey loads self c).
Proof.
  intros Hs. destruct c as [[read| | | | |asr_exits| | | |]|fresh|asr_exits]; simpl.
  - apply (sound_same_queue 50 self); [|exact Hs]. repeat case_match; reflexivity.
  - apply (sound_same_queue 50 self); [|exact Hs]. apply capture_pass_text_queue.
  - apply sound_asr_pass; [lia | exact Hs].
  - apply sound_clear_queues, Hs.
  - apply sound_clear_text; [lia | exact Hs].
  - apply sound_stop_recording; [lia | exact Hs].
  - apply (sound_same_queue 50 self); [|exact Hs].
    unfold LarynxApp._audio_capture_worker_enter. repeat case_match; reflexivity.
  - exact Hs.
  - exact Hs.
  - apply sound_send; [lia | reflexivity | exact Hs].
  - apply sound_start_recording, Hs.
  - apply sound_shutdown; [lia | exact Hs].
Qed.

End QueueToGui.

Section Lifecycle.
Context {R : Type} `{VoskEngine.KaldiRecognizer R}.
Variable loads : str -> outcome VoskEngine.json.

Lemma within_clear_queues (n : nat) (self : LarynxApp.t R) :
  Pipeline.frame_queues_within n self ->
  Pipeline.frame_queues_within n (LarynxApp._clear_queues self).
Proof.
  intros [Hq Hc]. split; simpl; [apply drain_within, Hq | exact Hc].
Qed.

Lemma within_start_recording (n : nat) (model : bool) (fresh : R)
    (self : LarynxApp.t R) :
  Pipeline.frame_queues_within n self ->
  Pipeline.frame_queues_within n
    (fst (LarynxApp.start_recording model fresh self)).
Proof.
  intros Hs. unfold LarynxApp.start_recording.
  destruct (LarynxApp.recording self); [exact Hs|].
  match goal with |- context [LarynxApp._clear_queues ?s] =>
    assert (Hc : Pipeline.frame_queues_within n (LarynxApp._clear_queues s))
      by (apply within_clear_queues; exact Hs);
    set (cleared := LarynxApp._clear_queues s) in * end.
  repeat case_match; exact Hc.
Qed.

Lemma within_shutdown (n : nat) (asr_exits : bool) (self : LarynxApp.t R) :
  Pipeline.frame_queues_within n self ->
  Pipeline.frame_queues_within n (LarynxApp.shutdown loads asr_exits self).
Proof.
  intros Hs. unfold LarynxApp.shutdown. simpl LarynxApp.recording. cbv iota.
  match goal with |- context [if asr_exits then ?a else ?b] =>
    assert (Hmid : Pipeline.frame_queues_within n (if asr_exits then a else b));
      [| set (mid := if asr_exits then a else b) in * ] end.
  { destruct asr_exits; [|exact Hs].
    unfold LarynxApp._asr_worker_exit.
    apply within_print, within_finalize. exact Hs. }
  pose proof (capture_stop_within n mid Hmid) as Hstop.
  destruct (LarynxApp.audio_capture mid) as [capture|]; simpl; [|exact Hmid].
  destruct (AudioCapture.stop_recording capture) as [capture' out].
  exact Hstop.
Qed.

Lemma within_obey (c : Pipeline.command) (self : LarynxApp.t R) :
  Pipeline.frame_queues_within 100 self ->
  Pipeline.frame_queues_within 100 (Pipeline.obey loads self c).
Proof.
  intros Hs. destruct c as [e|fresh|asr_exits]; simpl.
  - apply step_within; [lia | exact Hs].
  - apply within_start_recording, Hs.
  - apply within_shutdown, Hs.
Qed.

Lemma obey_all_sound (commands : list Pipeline.command) (self : LarynxApp.t R) :
  Pipeline.frame_queues_within 100 self /\ Pipeline.text_queue_sound 50 self ->
  Pipeline.frame_queues_within 100 (Pipeline.obey_all loads self commands) /\
  Pipeline.text_queue_sound 50 (Pipeline.obey_all loads self commands).
Proof.
  revert self. induction commands as [|c commands IH]; intros self Hs;
    [exact Hs|].
  apply IH. destruct Hs as [Hf Ht].
  split; [apply within_obey, Hf | apply sound_obey, Ht].
Qed.

End Lifecycle.

(** X14: the queues over the life of the application.  From the state that
    [__init__] leaves, whatever recordings are started and stopped, whatever
    the capture loop and the workers do from their entry on, whatever is
    cleared and even after a shutdown, the two frame queues hold at most 100
    frames and the queue to the GUI at most 50 updates, and every update
    waiting there has a text that formatting leaves as it is.  An update sent
    to a queue that is full, and stays so while the put waits, is dropped and
    the queue stays as it is; otherwise the update goes to the end of the
    queue with the word count that the buffer has at the send. *)
Theorem queues_stay_sound
    {R : Type} `{VoskEngine.KaldiRecognizer R}
    (loads : str -> outcome VoskEngine.json)
    (r0 : R) (commands : list Pipeline.command)
    (self : LarynxApp.t R) (kind : string) (text : str) :
  let app := Pipeline.obey_all loads (LarynxApp.init r0) commands in
  (Queue.qsize (LarynxApp.audio_queue app) <= 100 /\
   match LarynxApp.audio_capture app with
   | Some capture => Queue.qsize (AudioCapture.audio_queue capture) <= 100
   | None => True
   end) /\
  Queue.qsize (LarynxApp.text_queue app) <= 50 /\
  Forall
    (fun u => TextBuffer._format_text (LarynxApp.text u) = LarynxApp.text u)
    (Queue.items (LarynxApp.text_queue app)) /\
  (if Queue.full (LarynxApp.text_queue self)
   then LarynxApp._send_text_update self kind text = self
   else Queue.items
          (LarynxApp.text_queue (LarynxApp._send_text_update self kind text))
        = Queue.items (LarynxApp.text_queue self)
          ++ [LarynxApp.mk_update kind text
                (TextBuffer.get_word_count (LarynxApp.text_buffer self))]).
Proof.
  intros app.
  destruct (obey_all_sound loads commands (LarynxApp.init r0))
    as [[[_ Hq] Hc] [[_ Ht] Hu]].
  { split; [apply init_within|].
    split; [split; [reflexivity | unfold Queue.qsize; simpl; lia] | constructor]. }
  fold app in Hq, Hc, Ht, Hu.
  split; [split; [exact Hq|] | split; [exact Ht | split; [exact Hu|]]].
  - destruct (LarynxApp.audio_capture app); [apply Hc | exact I].
  - unfold LarynxApp._send_text_update, Queue.put.
    destruct (Queue.full (LarynxApp.text_queue self)); reflexivity.
Qed.

(** X23: the word count of an update is read apart from its text.  Run
    without another thread in between, [clear_text] sends the update "clear"
    with the empty text and the count 0, unless the queue to the GUI is full.
    But [_send_text_update] reads the count only when it builds the update,
    after [clear] has released the buffer: when the recognition worker
    confirms "hello world" between the two statements, the update "clear"
    goes out with the empty text and the count 2, behind the update of
    the worker, and the buffer holds the new text. *)
Theorem clear_update_counts_later_words
    {R : Type} `{VoskEngine.KaldiRecognizer R}
    (loads : str -> outcome VoskEngine.json) (self : LarynxApp.t R) :
  (Queue.full (LarynxApp.text_queue self) = false ->
   Queue.items (LarynxApp.text_queue (LarynxApp.step loads self LarynxApp.ClearText))
   = Queue.items (LarynxApp.text_queue self)
     ++ [LarynxApp.mk_update "clear" [] 0]) /\
  LarynxApp.step loads
    (LarynxApp.step loads self LarynxApp.BufferClear) LarynxApp.SendClear
  = LarynxApp.step loads self LarynxApp.ClearText /\
  Queue.items (LarynxApp.text_queue Double.raced_app)
  = [LarynxApp.mk_update "final" (lit "Hello world") 2;
     LarynxApp.mk_update "clear" [] 2] /\
  TextBuffer.get_full_text (LarynxApp.text_buffer Double.raced_app)
  = lit "Hello world".
Proof.
  split; [| split; [reflexivity | split; vm_compute; reflexivity]].
  intros Hroom. simpl. unfold LarynxApp.clear_text, LarynxApp._send_text_update,
    Queue.put.
  cbn [LarynxApp.text_queue LarynxApp.set_text_buffer LarynxApp.text_buffer].
  rewrite Hroom. cbn [LarynxApp.text_queue LarynxApp.set_text_queue Queue.items].
  unfold TextBuffer.get_word_count, TextBuffer.clear.
  cbn [TextBuffer.final_text]. rewrite split_equation_1. reflexivity.
Qed.

Lemma clear_update_counts_later_words_witness :
  Queue.items
    (LarynxApp.text_queue
       (LarynxApp.step Double.loads Double.partial_shown_app LarynxApp.ClearText))
  = [LarynxApp.mk_update "clear" [] 0].
Proof.
  refine (proj1 (clear_update_counts_later_words Double.loads
                   Double.partial_shown_app) _).
  reflexivity.
Defined.

(** ** Results without text *)

(** X15: an utterance confirmed with an empty text changes nothing on
    display.  When the recogniser accepts a frame as the end of an utterance
    and its result has no text, the recognition pass takes the frame from the
    queue and leaves the buffer, with the partial text it shows, and the queue
    to the GUI as they are: the partial text is not cleared. *)
Theorem empty_final_keeps_partial
    {R : Type} `{VoskEngine.KaldiRecognizer R}
    (loads : str -> outcome VoskEngine.json)
    (self : LarynxApp.t R) (chunk : bytes) (rest : list bytes)
    (r r1 r2 : R) (doc : str) (d : VoskEngine.json)
    (Hframe : Queue.items (LarynxApp.audio_queue self) = chunk :: rest)
    (Hengine : LarynxApp.vosk_engine self = VoskEngine.mk (Some r) true)
    (Haccept : VoskEngine.AcceptWaveform r chunk = (r1, Ok true))
    (Hresult : VoskEngine.Result r1 = (r2, Ok doc))
    (Hloads : loads doc = Ok d)
    (Htext : VoskEngine.get_strip d "text" = Ok []) :
  let after := LarynxApp._asr_worker_pass loads self in
  LarynxApp.text_buffer after = LarynxApp.text_buffer self /\
  LarynxApp.text_queue after = LarynxApp.text_queue self /\
  Queue.items (LarynxApp.audio_queue after) = rest /\
  LarynxApp.vosk_engine after = VoskEngine.mk (Some r2) true.
Proof.
  unfold LarynxApp._asr_worker_pass, Queue.get. rewrite Hframe.
  cbv beta iota zeta. simpl LarynxApp.vosk_engine. rewrite Hengine.
  unfold VoskEngine.process_audio, VoskEngine.process_audio_body,
    VoskEngine.bind, VoskEngine.lift, VoskEngine.ret.
  simpl VoskEngine.is_active. simpl VoskEngine.recognizer. cbv beta iota.
  rewrite Haccept. cbv beta iota. rewrite Hresult. cbv beta iota.
  rewrite Hloads. cbv beta iota. rewrite Htext. cbv beta iota.
  repeat split.
Qed.

Lemma empty_final_keeps_partial_witness :
  TextBuffer.get_partial_text_only
    (LarynxApp.text_buffer
       (LarynxApp._asr_worker_pass Double.loads Double.partial_shown_app))
  = lit "hello".
Proof.
  refine (f_equal TextBuffer.get_partial_text_only
    (proj1 (empty_final_keeps_partial Double.loads Double.partial_shown_app
       Double.silence []
       Double.empty_final_recognizer
       (Double.mk [] (Ok (Double.document (lit "text") [])) (Ok []))
       (Double.mk [] (Ok (Double.document (lit "text") [])) (Ok []))
       (Double.document (lit "text") [])
       (VoskEngine.JDict {[ "text" := VoskEngine.VStr [] ]})
       _ _ _ _ _ _))).
  - reflexivity.
  - reflexivity.
  - reflexivity.
  - reflexivity.
  - vm_compute. reflexivity.
  - reflexivity.
Defined.

(** ** Beginning and end of a session *)

Lemma start_recording_shape {R : Type} (fresh : R) (self : LarynxApp.t R) :
  LarynxApp.recording self = false ->
  LarynxApp.recording (fst (LarynxApp.start_recording true fresh self)) = true /\
  LarynxApp.gui (fst (LarynxApp.start_recording true fresh self))
  = LarynxApp.gui self ++ [LarynxApp.GuiStartRecording].
Proof.
  intros Hidle. unfold LarynxApp.start_recording. rewrite Hidle.
  unfold LarynxApp._clear_queues, VoskEngine.is_recognizing.
  simpl LarynxApp.vosk_engine.
  destruct (VoskEngine.is_active (LarynxApp.vosk_engine self)); simpl negb;
    cbv iota; [split; reflexivity|].
  unfold VoskEngine.start. simpl negb. cbv iota.
  destruct (VoskEngine.recognizer (LarynxApp.vosk_engine self)); simpl;
    split; reflexivity.
Qed.

(** A put into an empty queue succeeds at once, whatever the capacity. *)
Lemma put_empty {A} (m : Z) (item : A) (timeout : Z) :
  Queue.put (Queue.mk m []) item timeout = (Ok (Queue.mk m [item]), 0%Z).
Proof.
  unfold Queue.put, Queue.full, Queue.qsize. cbn [Queue.items Queue.maxsize length].
  change (Z.of_nat 0) with 0%Z.
  destruct (0 <? m)%Z eqn:Epos; [|reflexivity].
  destruct (m <=? 0)%Z eqn:Ele; [lia | reflexivity].
Qed.

(** X16: what a new recording starts from.  Called while no recording runs
    and with the model loaded, [start_recording] raises nothing, sets the
    flag, empties the transcript and both queues of the application, leaves
    the engine active (with its recogniser when it was recognising, with a new
    one otherwise) and tells the GUI once; called while a recording runs it
    changes nothing.  The capture thread it launches begins by starting the
    capture object, which sets the flag of that object.  Neither
    [start_recording] nor the thread empties the queue of the capture object:
    it holds what it held, and a frame left there by the recording before is
    the first frame that the capture loop, on the pass right after its
    entry, hands on for recognition (the loop runs while the flag is set and
    no shutdown was asked for). *)
Theorem start_recording_resets_session
    {R : Type} `{VoskEngine.KaldiRecognizer R}
    (fresh : R) (self : LarynxApp.t R)
    (Hidle : LarynxApp.recording self = false) :
  let started := LarynxApp.start_recording true fresh self in
  let entered := LarynxApp._audio_capture_worker_enter (fst started) in
  snd started = None /\
  LarynxApp.recording (fst started) = true /\
  LarynxApp.text_buffer (fst started) = TextBuffer.init /\
  Queue.items (LarynxApp.audio_queue (fst started)) = [] /\
  Queue.items (LarynxApp.text_queue (fst started)) = [] /\
  LarynxApp.vosk_engine (fst started)
  = (if VoskEngine.is_active (LarynxApp.vosk_engine self)
     then LarynxApp.vosk_engine self
     else VoskEngine.mk (Some fresh) true) /\
  LarynxApp.gui (fst started)
  = LarynxApp.gui self ++ [LarynxApp.GuiStartRecording] /\
  LarynxApp.start_recording true fresh (fst started) = (fst started, None) /\
  (forall capture : AudioCapture.t,
      LarynxApp.audio_capture self = Some capture ->
      exists capture' : AudioCapture.t,
        LarynxApp.audio_capture entered = Some capture' /\
        AudioCapture.is_recording capture' = true /\
        AudioCapture.audio_queue capture' = AudioCapture.audio_queue capture) /\
  (forall (capture : AudioCapture.t) (chunk : bytes) (rest : list bytes),
      LarynxApp.audio_capture self = Some capture ->
      Queue.items (AudioCapture.audio_queue capture) = chunk :: rest ->
      chunk <> [] ->
      let passed := fst (LarynxApp._audio_capture_worker_pass entered) in
      LarynxApp.recording entered = true /\
      LarynxApp.shutdown_event entered = LarynxApp.shutdown_event self /\
      Queue.items (LarynxApp.audio_queue passed) = [chunk] /\
      LarynxApp.text_buffer passed = TextBuffer.init /\
      LarynxApp.recording passed = true).
Proof.
  assert (Hflag : forall (s : LarynxApp.t R),
            LarynxApp.recording s = true ->
            LarynxApp.start_recording true fresh s = (s, None)).
  { intros s Hs. unfold LarynxApp.start_recording. rewrite Hs. reflexivity. }
  set (cleared :=
    LarynxApp._clear_queues
      (LarynxApp.set_text_buffer
         (LarynxApp.set_recording
            (LarynxApp.print self [lit "🎤 Starting recording..."]) true)
         (TextBuffer.add_partial_text
            (TextBuffer.clear (LarynxApp.text_buffer self)) []))).
  assert (Hform : exists out : list str,
    LarynxApp.start_recording true fresh self
    = (LarynxApp.call_gui
         (LarynxApp.print
            (LarynxApp.set_vosk_engine cleared
               (if VoskEngine.is_active (LarynxApp.vosk_engine self)
                then LarynxApp.vosk_engine self
                else VoskEngine.mk (Some fresh) true)) out)
         LarynxApp.GuiStartRecording, None)).
  { subst cleared. unfold LarynxApp.start_recording. rewrite Hidle.
    unfold LarynxApp._clear_queues, VoskEngine.is_recognizing.
    simpl LarynxApp.vosk_engine.
    destruct (VoskEngine.is_active (LarynxApp.vosk_engine self)); simpl negb;
      cbv iota; [eexists; reflexivity|].
    unfold VoskEngine.start. simpl negb. cbv iota.
    destruct (VoskEngine.recognizer (LarynxApp.vosk_engine self));
      simpl; eexists; reflexivity. }
  destruct Hform as [out Hform]. cbv zeta. rewrite Hform.
  subst cleared. unfold LarynxApp._clear_queues. rewrite !drain_empty.
  cbn [fst snd].
  assert (Hentered : forall capture : AudioCapture.t,
    LarynxApp.audio_capture self = Some capture ->
    exists (capture' : AudioCapture.t) (lines : list str),
      AudioCapture.is_recording capture' = true /\
      AudioCapture.audio_queue capture' = AudioCapture.audio_queue capture /\
      forall s : LarynxApp.t R,
        LarynxApp.audio_capture s = Some capture ->
        LarynxApp._audio_capture_worker_enter s
        = LarynxApp.print
            (LarynxApp.set_audio_capture
               (LarynxApp.print s [lit "🎵 Audio capture thread started"])
               (Some capture')) lines).
  { intros capture _.
    destruct (AudioCapture.start_recording capture) as [capture' lines] eqn:E.
    exists capture', lines.
    assert (Hc : AudioCapture.is_recording capture' = true /\
                 AudioCapture.audio_queue capture'
                 = AudioCapture.audio_queue capture).
    { unfold AudioCapture.start_recording in E.
      destruct (AudioCapture.is_recording_flag capture) eqn:Ef;
        injection E as <- <-; split; try reflexivity. exact Ef. }
    destruct Hc as [Hon Hqueue]. split; [exact Hon | split; [exact Hqueue|]].
    intros s Hs. unfold LarynxApp._audio_capture_worker_enter.
    simpl LarynxApp.audio_capture. rewrite Hs, E. reflexivity. }
  split; [reflexivity|]. split; [reflexivity|]. split; [reflexivity|].
  split; [reflexivity|]. split; [reflexivity|]. split; [reflexivity|].
  split; [reflexivity|]. split; [apply Hflag; reflexivity|].
  split.
  - intros capture Hcap.
    destruct (Hentered capture Hcap) as (capture' & lines & Hon & Hqueue & Henter).
    exists capture'. rewrite Henter by exact Hcap.
    split; [reflexivity | split; assumption].
  - intros capture chunk rest Hcap Hitems Hchunk.
    destruct (Hentered capture Hcap) as (capture' & lines & Hon & Hqueue & Henter).
    rewrite Henter by exact Hcap.
    unfold LarynxApp._audio_capture_worker_pass.
    simpl LarynxApp.audio_capture.
    unfold AudioCapture.get_audio_chunk, Queue.get.
    rewrite Hqueue, Hitems.
    destruct chunk as [|x chunk]; [contradiction|].
    cbn [LarynxApp.audio_queue LarynxApp.set_audio_capture LarynxApp.print
         LarynxApp.call_gui LarynxApp.set_vosk_engine LarynxApp.set_text_queue
         LarynxApp.set_audio_queue].
    rewrite put_empty. repeat split.
Qed.

Lemma start_recording_resets_session_witness :
  LarynxApp.recording Double.stale_app = false /\
  Queue.items
    (LarynxApp.audio_queue
       (fst (LarynxApp._audio_capture_worker_pass
               (LarynxApp._audio_capture_worker_enter
                  (fst (LarynxApp.start_recording true Double.idle_recognizer
                          Double.stale_app))))))
  = [Double.stale_frame].
Proof.
  assert (Hidle : LarynxApp.recording Double.stale_app = false) by reflexivity.
  split; [exact Hidle|].
  pose proof (start_recording_resets_session Double.idle_recognizer
                Double.stale_app Hidle) as Hstart.
  cbv zeta in Hstart.
  destruct Hstart as (_ & _ & _ & _ & _ & _ & _ & _ & _ & Hstale).
  refine (proj1 (proj2 (proj2 (Hstale _ Double.stale_frame [] _ _ _)))).
  - reflexivity.
  - reflexivity.
  - discriminate.
Defined.

Section ShutdownFacts.
Context {R : Type} `{VoskEngine.KaldiRecognizer R}.
Variable loads : str -> outcome VoskEngine.json.

Lemma finalize_flags (self : LarynxApp.t R) :
  let self' := LarynxApp._finalize_transcription loads self in
  LarynxApp.gui self' = LarynxApp.gui self /\
  LarynxApp.recording self' = LarynxApp.recording self /\
  LarynxApp.running self' = LarynxApp.running self /\
  LarynxApp.shutdown_event self' = LarynxApp.shutdown_event self.
Proof.
  unfold LarynxApp._finalize_transcription.
  destruct (VoskEngine.get_final_result loads _) as [[engine out] final].
  destruct final; simpl; auto.
  unfold LarynxApp._send_text_update.
  destruct (Queue.put _ _ _) as [[q|e] w]; simpl; auto.
Qed.

(** The last part of [shutdown], behind the joins. *)
Lemma shutdown_close (mid : LarynxApp.t R) :
  let closed :=
    let mid' :=
      match LarynxApp.audio_capture mid with
      | Some capture =>
          let '(capture, out) := AudioCapture.stop_recording capture in
          LarynxApp.print (LarynxApp.set_audio_capture mid (Some capture)) out
      | None => mid
      end in
    let '(engine, out) := VoskEngine.reset (LarynxApp.vosk_engine mid') in
    LarynxApp.print (LarynxApp.print (LarynxApp.set_vosk_engine mid' engine) out)
      [lit "✅ Larynx shutdown complete"] in
  LarynxApp.gui closed = LarynxApp.gui mid /\
  LarynxApp.recording closed = LarynxApp.recording mid /\
  LarynxApp.running closed = LarynxApp.running mid /\
  LarynxApp.shutdown_event closed = LarynxApp.shutdown_event mid /\
  LarynxApp.vosk_engine closed = VoskEngine.mk None false.
Proof.
  cbv zeta.
  destruct (LarynxApp.audio_capture mid) as [capture|]; simpl;
    [destruct (AudioCapture.stop_recording capture); simpl|]; auto.
Qed.

Lemma shutdown_fields (asr_exits : bool) (self : LarynxApp.t R) :
  let closed := LarynxApp.shutdown loads asr_exits self in
  LarynxApp.gui closed = LarynxApp.gui self /\
  LarynxApp.recording closed = false /\
  LarynxApp.running closed = false /\
  LarynxApp.shutdown_event closed = true /\
  LarynxApp.vosk_engine closed = VoskEngine.mk None false.
Proof.
  cbv zeta.
  set (flagged :=
    LarynxApp.set_shutdown_event
      (LarynxApp.set_recording
         (LarynxApp.set_running
            (LarynxApp.print self [lit "🔄 Shutting down Larynx..."]) false)
         false) true).
  pose proof (shutdown_close
                (if asr_exits then LarynxApp._asr_worker_exit loads flagged
                 else flagged)) as Hclose.
  cbv zeta in Hclose.
  change (LarynxApp.shutdown loads asr_exits self) with
    (let mid' :=
       match LarynxApp.audio_capture
               (if asr_exits then LarynxApp._asr_worker_exit loads flagged
                else flagged) with
       | Some capture =>
           let '(capture, out) := AudioCapture.stop_recording capture in
           LarynxApp.print
             (LarynxApp.set_audio_capture
                (if asr_exits then LarynxApp._asr_worker_exit loads flagged
                 else flagged) (Some capture)) out
       | None =>
           if asr_exits then LarynxApp._asr_worker_exit loads flagged
           else flagged
       end in
     let '(engine, out) := VoskEngine.reset (LarynxApp.vosk_engine mid') in
     LarynxApp.print (LarynxApp.print (LarynxApp.set_vosk_engine mid' engine) out)
       [lit "✅ Larynx shutdown complete"]).
  cbv zeta.
  destruct Hclose as (-> & -> & -> & -> & ->).
  destruct asr_exits; [|repeat split].
  unfold LarynxApp._asr_worker_exit. simpl.
  destruct (finalize_flags flagged) as (-> & -> & -> & ->).
  repeat split.
Qed.

Lemma shutdown_quiet (self : LarynxApp.t R) :
  LarynxApp.text_buffer (LarynxApp.shutdown loads false self)
  = LarynxApp.text_buffer self /\
  LarynxApp.text_queue (LarynxApp.shutdown loads false self)
  = LarynxApp.text_queue self.
Proof.
  unfold LarynxApp.shutdown. simpl.
  destruct (LarynxApp.audio_capture self) as [capture|]; simpl; [|auto].
  destruct (AudioCapture.stop_recording capture); simpl; auto.
Qed.

End ShutdownFacts.

(** X17: the end of the application.  [shutdown] clears the flags before it
    looks at them, so it never runs [stop_recording]: the GUI is not called,
    and unless the recognition worker finalizes while it is joined, the
    transcript and the queue to the GUI stay as they are while the engine is
    reset, so that a text the recogniser still held is not recovered.
    Afterwards the application records nothing, the engine is idle, and a
    second [shutdown] changes none of this. *)
Theorem shutdown_skips_stop
    {R : Type} `{VoskEngine.KaldiRecognizer R}
    (loads : str -> outcome VoskEngine.json)
    (self : LarynxApp.t R) (asr_exits : bool) :
  let closed := LarynxApp.shutdown loads asr_exits self in
  LarynxApp.gui closed = LarynxApp.gui self /\
  LarynxApp.recording closed = false /\
  LarynxApp.running closed = false /\
  LarynxApp.shutdown_event closed = true /\
  LarynxApp.vosk_engine closed = VoskEngine.mk None false /\
  snd (VoskEngine.get_final_result loads (LarynxApp.vosk_engine closed)) = [] /\
  LarynxApp.text_buffer (LarynxApp.shutdown loads false self)
  = LarynxApp.text_buffer self /\
  LarynxApp.text_queue (LarynxApp.shutdown loads false self)
  = LarynxApp.text_queue self /\
  LarynxApp.text_buffer (LarynxApp.shutdown loads false closed)
  = LarynxApp.text_buffer closed.
Proof.
  cbv zeta.
  destruct (shutdown_fields loads asr_exits self) as (Hgui & Hrec & Hrun & Hev & Heng).
  split; [exact Hgui|]. split; [exact Hrec|]. split; [exact Hrun|].
  split; [exact Hev|]. split; [exact Heng|].
  split; [rewrite Heng; reflexivity|].
  split; [apply shutdown_quiet|]. split; apply shutdown_quiet.
Qed.

(** ** The window *)

Lemma gui_act_in_step (g : LarynxGUI.t) (a : LarynxGUI.action) :
  LarynxGUI.status_label g
  = LarynxGUI.status_text (LarynxGUI.is_recording g) (LarynxGUI.word_count g) /\
  LarynxGUI.start_btn g
  = (if LarynxGUI.is_recording g then LarynxGUI.Disabled else LarynxGUI.Normal) /\
  LarynxGUI.stop_btn g
  = (if LarynxGUI.is_recording g then LarynxGUI.Normal else LarynxGUI.Disabled) ->
  let g' := LarynxGUI.act g a in
  LarynxGUI.status_label g'
  = LarynxGUI.status_text (LarynxGUI.is_recording g') (LarynxGUI.word_count g') /\
  LarynxGUI.start_btn g'
  = (if LarynxGUI.is_recording g' then LarynxGUI.Disabled else LarynxGUI.Normal) /\
  LarynxGUI.stop_btn g'
  = (if LarynxGUI.is_recording g' then LarynxGUI.Normal else LarynxGUI.Disabled).
Proof.
  intros (Hlabel & Hstart & Hstop).
  destruct a as [| |text| |yes]; cbv zeta; cbn [LarynxGUI.act].
  - unfold LarynxGUI.start_recording.
    destruct (LarynxGUI.is_recording g) eqn:Er; simpl; [rewrite Er; auto|].
    destruct (contains _ _); simpl; auto.
  - unfold LarynxGUI.stop_recording.
    destruct (LarynxGUI.is_recording g) eqn:Er; simpl; [auto | rewrite Er; auto].
  - unfold LarynxGUI.update. simpl. auto.
  - unfold LarynxGUI.copy_to_clipboard.
    destruct (strip (LarynxGUI.text_area_get g)); simpl; auto.
  - unfold LarynxGUI.clear_text. destruct yes; simpl; auto.
Qed.

(** X18: the widgets of the window agree.  From the window that [__init__]
    builds, after whatever starts, stops, text updates, copies and clearings,
    the status label shows the recording state and the word count that the
    window holds, the start button is disabled exactly while it records and
    the stop button exactly while it does not. *)
Theorem window_widgets_agree (actions : list LarynxGUI.action) :
  let g := foldl LarynxGUI.act LarynxGUI.init actions in
  LarynxGUI.status_label g
  = LarynxGUI.status_text (LarynxGUI.is_recording g) (LarynxGUI.word_count g) /\
  LarynxGUI.start_btn g
  = (if LarynxGUI.is_recording g then LarynxGUI.Disabled else LarynxGUI.Normal) /\
  LarynxGUI.stop_btn g
  = (if LarynxGUI.is_recording g then LarynxGUI.Normal else LarynxGUI.Disabled).
Proof.
  induction actions as [|a actions IH] using rev_ind; [repeat split|].
  cbv zeta. rewrite foldl_app. simpl foldl.
  apply gui_act_in_step. exact IH.
Qed.

Lemma strip_nil_split_nil (text : str) : strip text = [] -> split text = [].
Proof. intros E. apply split_all_space, strip_nil_all_space, E. Qed.

Lemma update_word_count (g : LarynxGUI.t) (text : str) :
  LarynxGUI.word_count (LarynxGUI.update g text) = length (split text).
Proof.
  unfold LarynxGUI.update. simpl.
  destruct (strip text) as [|c r] eqn:E; [|reflexivity].
  rewrite (strip_nil_split_nil text E). reflexivity.
Qed.

(** X19: the word count of the window.  The closure that shows a text sets
    the word count to [len(text.split())] for every text: its test of
    [text.strip()] never changes the value.  For the display text of a buffer
    this is the number of words of the final and the partial text together,
    never less than [get_word_count()], which leaves the partial text out. *)
Theorem window_counts_partial_words
    (g : LarynxGUI.t) (text : str) (self : TextBuffer.t) :
  LarynxGUI.word_count (LarynxGUI.update g text) = length (split text) /\
  LarynxGUI.word_count (LarynxGUI.update g (TextBuffer.get_full_text self))
  = length (split (TextBuffer.final_text self ++ TextBuffer.partial_text self)) /\
  TextBuffer.get_word_count self
  <= LarynxGUI.word_count (LarynxGUI.update g (TextBuffer.get_full_text self)).
Proof.
  split; [apply update_word_count|].
  rewrite update_word_count.
  assert (Hcount :
    length (split (TextBuffer.get_full_text self))
    = length (split (TextBuffer.final_text self ++ TextBuffer.partial_text self))).
  { unfold TextBuffer.get_full_text.
    rewrite !split_length_token_count, format_text_scan.
    rewrite token_count_capitalize, token_count_cap_first, strip_idem.
    apply token_count_normalize. }
  split; [exact Hcount|].
  rewrite Hcount. unfold TextBuffer.get_word_count.
  rewrite !split_length_token_count. apply token_count_app_le.
Qed.

(** X20: what goes to the clipboard.  After a text is shown, the copy button
    puts the text without the whitespace at its ends on the clipboard; when
    nothing but whitespace is shown it leaves the clipboard as it is and tells
    the user that there is no text to copy. *)
Theorem copy_takes_stripped_text (g : LarynxGUI.t) (text : str) :
  let shown := LarynxGUI.update g text in
  let copied := LarynxGUI.copy_to_clipboard shown in
  match strip text with
  | [] =>
      LarynxGUI.clipboard copied = LarynxGUI.clipboard g /\
      LarynxGUI.dialogs copied = LarynxGUI.dialogs g ++ [lit "No text to copy"]
  | _ :: _ =>
      LarynxGUI.clipboard copied = strip text /\
      LarynxGUI.dialogs copied = LarynxGUI.dialogs g
  end /\
  LarynxGUI.text_area copied = text.
Proof.
  cbv zeta. unfold LarynxGUI.copy_to_clipboard, LarynxGUI.text_area_get.
  simpl LarynxGUI.text_area.
  rewrite (strip_app_all_space text [LarynxGUI.nl]) by (repeat constructor).
  destruct (strip text); simpl; auto.
Qed.

(** ** The window and the recording flag *)

Section WindowFacts.
Context {R : Type} `{VoskEngine.KaldiRecognizer R}.
Variable loads : str -> outcome VoskEngine.json.

Lemma send_flags (self : LarynxApp.t R) (kind : string) (text : str) :
  LarynxApp.gui (LarynxApp._send_text_update self kind text) = LarynxApp.gui self /\
  LarynxApp.recording (LarynxApp._send_text_update self kind text)
  = LarynxApp.recording self.
Proof.
  unfold LarynxApp._send_text_update.
  destruct (Queue.put _ _ _) as [[q|e] w]; simpl; auto.
Qed.

Lemma asr_pass_flags (self : LarynxApp.t R) :
  LarynxApp.gui (LarynxApp._asr_worker_pass loads self) = LarynxApp.gui self /\
  LarynxApp.recording (LarynxApp._asr_worker_pass loads self)
  = LarynxApp.recording self.
Proof.
  unfold LarynxApp._asr_worker_pass.
  destruct (Queue.get (LarynxApp.audio_queue self) 100)
    as [[[chunk q]|e] w]; [|auto].
  destruct (VoskEngine.process_audio loads _ chunk) as [[engine out] results].
  destruct (LarynxApp.truthy results "partial") as [partial|];
    destruct (LarynxApp.truthy results "final") as [final|];
    repeat match goal with
           | |- context [LarynxApp.gui (LarynxApp._send_text_update ?s ?k ?t)] =>
               rewrite (proj1 (send_flags s k t)); simpl
           | |- context [LarynxApp.recording (LarynxApp._send_text_update ?s ?k ?t)] =>
               rewrite (proj2 (send_flags s k t)); simpl
           end; auto.
Qed.

Lemma event_flags (e : LarynxApp.event) (self : LarynxApp.t R) :
  match e with LarynxApp.Stop _ => False | _ => True end ->
  LarynxApp.gui (LarynxApp.step loads self e) = LarynxApp.gui self /\
  LarynxApp.recording (LarynxApp.step loads self e) = LarynxApp.recording self.
Proof.
  destruct e as [read| | | | |asr_exits| | | |]; simpl; intros Hlive.
  - repeat case_match; auto.
  - unfold LarynxApp._audio_capture_worker_pass. repeat case_match; auto.
  - apply asr_pass_flags.
  - auto.
  - unfold LarynxApp.clear_text.
    match goal with |- context [LarynxApp._send_text_update ?s ?k ?t] =>
      destruct (send_flags s k t) as [-> ->] end.
    auto.
  - destruct Hlive.
  - unfold LarynxApp._audio_capture_worker_enter. repeat case_match; auto.
  - auto.
  - auto.
  - apply send_flags.
Qed.

Lemma window_snoc (calls : list LarynxApp.gui_call) (c : LarynxApp.gui_call) :
  Pipeline.window (calls ++ [c])
  = match c with
    | LarynxApp.GuiStartRecording =>
        fst (LarynxGUI.start_recording (Pipeline.window calls))
    | LarynxApp.GuiStopRecording =>
        fst (LarynxGUI.stop_recording (Pipeline.window calls))
    end.
Proof. unfold Pipeline.window. rewrite foldl_app. reflexivity. Qed.

Lemma stop_follows (asr_exits : bool) (self : LarynxApp.t R) :
  Pipeline.window_follows self ->
  Pipeline.window_follows (LarynxApp.stop_recording loads asr_exits self).
Proof.
  unfold Pipeline.window_follows. intros Hs.
  destruct (LarynxApp.recording self) eqn:Hrec.
  - rewrite (stop_recording_unfold loads asr_exits self Hrec).
    simpl LarynxApp.gui. simpl LarynxApp.recording.
    destruct (stopped_frame self) as (_ & _ & Hoff).
    assert (Hgui : LarynxApp.gui (Pipeline.stopped self) = LarynxApp.gui self).
    { unfold Pipeline.stopped. repeat case_match; reflexivity. }
    assert (Hmid :
      LarynxApp.gui (if asr_exits
                     then LarynxApp._asr_worker_exit loads (Pipeline.stopped self)
                     else Pipeline.stopped self) = LarynxApp.gui self /\
      LarynxApp.recording (if asr_exits
                     then LarynxApp._asr_worker_exit loads (Pipeline.stopped self)
                     else Pipeline.stopped self) = false).
    { destruct asr_exits; [|auto].
      unfold LarynxApp._asr_worker_exit. simpl.
      destruct (finalize_flags loads (Pipeline.stopped self)) as (-> & -> & _).
      auto. }
    destruct Hmid as [Hmg Hmr].
    match goal with |- context [LarynxApp._finalize_transcription loads ?s] =>
      destruct (finalize_flags loads s) as (-> & -> & _) end.
    rewrite Hmg, Hmr, window_snoc.
    unfold LarynxGUI.stop_recording. rewrite Hs. reflexivity.
  - unfold LarynxApp.stop_recording. rewrite Hrec. simpl. rewrite Hrec. exact Hs.
Qed.

Lemma start_follows (fresh : R) (self : LarynxApp.t R) :
  Pipeline.window_follows self ->
  Pipeline.window_follows (fst (LarynxApp.start_recording true fresh self)).
Proof.
  unfold Pipeline.window_follows. intros Hs.
  destruct (LarynxApp.recording self) eqn:Hrec.
  - unfold LarynxApp.start_recording. rewrite Hrec. simpl. rewrite Hrec. exact Hs.
  - destruct (start_recording_shape fresh self Hrec) as (Hon & Hgui).
    rewrite Hon, Hgui, window_snoc.
    unfold LarynxGUI.start_recording. rewrite Hs.
    simpl. destruct (contains _ _); reflexivity.
Qed.

Lemma obey_follows (c : Pipeline.command) (self : LarynxApp.t R) :
  Pipeline.is_live c -> Pipeline.window_follows self ->
  Pipeline.window_follows (Pipeline.obey loads self c).
Proof.
  intros Hlive Hs. destruct c as [e|fresh|asr_exits]; simpl.
  - destruct e as [read| | | | |asr_exits| | | |];
      try (unfold Pipeline.window_follows;
           match goal with |- context [LarynxApp.step loads self ?e] =>
             destruct (event_flags e self I) as [-> ->] end; exact Hs).
    apply stop_follows, Hs.
  - apply start_follows, Hs.
  - destruct Hlive.
Qed.

End WindowFacts.

Lemma window_in_step (calls : list LarynxApp.gui_call) :
  let w := Pipeline.window calls in
  LarynxGUI.start_btn w
  = (if LarynxGUI.is_recording w then LarynxGUI.Disabled else LarynxGUI.Normal) /\
  LarynxGUI.stop_btn w
  = (if LarynxGUI.is_recording w then LarynxGUI.Normal else LarynxGUI.Disabled).
Proof.
  assert (Hall :
    let w := Pipeline.window calls in
    LarynxGUI.status_label w
    = LarynxGUI.status_text (LarynxGUI.is_recording w) (LarynxGUI.word_count w) /\
    LarynxGUI.start_btn w
    = (if LarynxGUI.is_recording w then LarynxGUI.Disabled else LarynxGUI.Normal) /\
    LarynxGUI.stop_btn w
    = (if LarynxGUI.is_recording w then LarynxGUI.Normal else LarynxGUI.Disabled)).
  { induction calls as [|c calls IH] using rev_ind; [repeat split|].
    cbv zeta. unfold Pipeline.window. rewrite foldl_app. simpl foldl.
    fold (Pipeline.window calls).
    destruct c.
    - apply (gui_act_in_step (Pipeline.window calls) LarynxGUI.StartRecording IH).
    - apply (gui_act_in_step (Pipeline.window calls) LarynxGUI.StopRecording IH). }
  cbv zeta in *. destruct Hall as (_ & Hstart & Hstop). auto.
Qed.

(** X21: the window follows the recording flag.  From the state that
    [__init__] leaves and through whatever commands and events short of a
    shutdown, the window that received the calls of the application shows
    recording exactly when the flag [recording] is set, with the start button
    disabled and the stop button enabled exactly then. *)
Theorem window_follows_recording
    {R : Type} `{VoskEngine.KaldiRecognizer R}
    (loads : str -> outcome VoskEngine.json)
    (r0 : R) (commands : list Pipeline.command)
    (Hlive : Forall Pipeline.is_live commands) :
  let app := Pipeline.obey_all loads (LarynxApp.init r0) commands in
  let w := Pipeline.window (LarynxApp.gui app) in
  LarynxGUI.is_recording w = LarynxApp.recording app /\
  LarynxGUI.start_btn w
  = (if LarynxApp.recording app then LarynxGUI.Disabled else LarynxGUI.Normal) /\
  LarynxGUI.stop_btn w
  = (if LarynxApp.recording app then LarynxGUI.Normal else LarynxGUI.Disabled).
Proof.
  intros app w.
  assert (Hfollows : Pipeline.window_follows app).
  { subst app. unfold Pipeline.obey_all.
    assert (Hgen : forall s : LarynxApp.t R,
      Pipeline.window_follows s ->
      Pipeline.window_follows (foldl (Pipeline.obey loads) s commands)).
    { induction Hlive as [|c commands Hc _ IH]; intros s Hs; [exact Hs|].
      simpl. apply IH, obey_follows; assumption. }
    apply Hgen. reflexivity. }
  unfold Pipeline.window_follows in Hfollows. fold w in Hfollows.
  destruct (window_in_step (LarynxApp.gui app)) as [Hstart Hstop].
  fold w in Hstart, Hstop. rewrite <- Hfollows. auto.
Qed.

Lemma window_follows_recording_witness :
  let app :=
    Pipeline.obey_all Double.loads (LarynxApp.init Double.pending_recognizer)
      [Pipeline.Start Double.idle_recognizer;
       Pipeline.Event (LarynxApp.DeviceRead (Ok Double.silence));
       Pipeline.Event LarynxApp.CapturePass;
       Pipeline.Event LarynxApp.AsrPass;
       Pipeline.Event (LarynxApp.Stop true);
       Pipeline.Start Double.idle_recognizer] in
  LarynxGUI.is_recording (Pipeline.window (LarynxApp.gui app))
  = LarynxApp.recording app.
Proof.
  refine (proj1 (window_follows_recording Double.loads
                   Double.pending_recognizer _ _)).
  repeat constructor.
Defined.

(** ** Committed text over a session *)

Section CommittedText.
Context {R : Type} `{VoskEngine.KaldiRecognizer R}.
Variable loads : str -> outcome VoskEngine.json.








End CommittedText.


